(** * Paxos peer of bpv3/paxos/paxos.go: acceptor handlers, proposer rounds,
      quorum rule and the Done/Min watermark.

    The Go code is embedded shallowly.

    - [interface{}] payloads are [option V] for an arbitrary payload type
      [V]; Go's [nil] is [None].
    - Go's [int] and [int64] are [Z].  The modelled code only compares
      ballots and sequence numbers; the only arithmetic is the vote
      counters ([agreed++], [accept++], bounded by [len(px.peers)]),
      [len(px.peers)/2] and [ans + 1] in [Min], which is wrapped to the
      64-bit two's complement range with [int_wrap].
    - [map[int]*PaxosInst] is a [gmap Z PaxosInst]; every pointer lives in
      the map only, and every handler runs under [px.mu], so a handler is a
      function from the peer state to the peer state and its reply.
    - [px.done[i] = x] panics in Go when [i] is out of range; the handlers
      that index [px.done] return an [outcome] next to the state.
    - A broadcast ([sendPrepare], [sendCommit]) joins on [len(px.peers)]
      replies read from a channel; the model takes the replies in their
      order of arrival, so that a statement over all reply lists covers
      every schedule, every loss and every concurrent proposer. *)

From stdpp Require Import gmap strings list fin_maps.

Local Open Scope Z_scope.

(** ** Data model *)

Inductive ErrCode := ErrOK | ErrNetwork | ErrRejected.
Inductive State := StateUndecided | StateDecided.

Global Instance ErrCode_eq_dec : EqDecision ErrCode.
Proof. solve_decision. Defined.
Global Instance State_eq_dec : EqDecision State.
Proof. solve_decision. Defined.

Module PrepareReq.
Record t := mk { Seq : Z; Stamp : Z }.
End PrepareReq.

Module PrepareRsp.
Record t (V : Type) := mk { Code : ErrCode; Value : option V; Stamp : Z }.
Arguments mk {V} _ _ _.
Arguments Code {V} _.
Arguments Value {V} _.
Arguments Stamp {V} _.
End PrepareRsp.

Module CommitReq.
Record t (V : Type) := mk { Seq : Z; Value : option V; Stamp : Z }.
Arguments mk {V} _ _ _.
Arguments Seq {V} _.
Arguments Value {V} _.
Arguments Stamp {V} _.
End CommitReq.

Module CommitRsp.
Record t := mk { Code : ErrCode }.
End CommitRsp.

Module DecideReq.
Record t (V : Type) := mk { Seq : Z; Value : option V; Svrid : Z; Done : Z }.
Arguments mk {V} _ _ _ _.
Arguments Seq {V} _.
Arguments Value {V} _.
Arguments Svrid {V} _.
Arguments Done {V} _.
End DecideReq.

Record PaxosInst (V : Type) := mkInst {
  status : State;
  value : option V;
  platest : Z;
  alatest : Z
}.
Arguments mkInst {V} _ _ _ _.
Arguments status {V} _.
Arguments value {V} _.
Arguments platest {V} _.
Arguments alatest {V} _.

(** The fields of [Paxos] the protocol uses.  [mu], [l], [dead],
    [unreliable] and [rpcCount] belong to the transport; [value] is never
    written after [Make]. *)
Record Paxos (V : Type) := mkPaxos {
  peers : list string;
  me : Z;
  instance : gmap Z (PaxosInst V);
  done : list Z
}.
Arguments mkPaxos {V} _ _ _ _.
Arguments peers {V} _.
Arguments me {V} _.
Arguments instance {V} _.
Arguments done {V} _.

(** How a handler that indexes a slice ends. *)
Inductive outcome := Returned | Panicked.

(** Go's [int] on the 64-bit targets of the repository. *)
Definition int_wrap (z : Z) : Z := (z + 2 ^ 63) `mod` 2 ^ 64 - 2 ^ 63.
Definition int_range (z : Z) : Prop := - 2 ^ 63 <= z < 2 ^ 63.

Section Peer.
Context {V : Type}.

Definition set_instance (px : Paxos V) (tbl : gmap Z (PaxosInst V)) : Paxos V :=
  mkPaxos (peers px) (me px) tbl (done px).

Definition set_done (px : Paxos V) (d : list Z) : Paxos V :=
  mkPaxos (peers px) (me px) (instance px) d.

Definition in_bounds (i : Z) (l : list Z) : bool :=
  (0 <=? i) && (i <? Z.of_nat (length l)).

(** [Make]: empty table, every watermark at the sentinel -1. *)
Definition Make (ps : list string) (m : Z) : Paxos V :=
  mkPaxos ps m ∅ (replicate (length ps) (-1)).

(** ** Acceptor handlers *)

Definition AcceptPrepare (px : Paxos V) (req : PrepareReq.t)
  : Paxos V * PrepareRsp.t V :=
  match instance px !! PrepareReq.Seq req with
  | None =>
      let inst := mkInst StateUndecided None (PrepareReq.Stamp req) 0 in
      (set_instance px (<[PrepareReq.Seq req := inst]> (instance px)),
       PrepareRsp.mk ErrOK (value inst) (alatest inst))
  | Some inst =>
      if platest inst <=? PrepareReq.Stamp req then
        let inst' :=
          mkInst (status inst) (value inst) (PrepareReq.Stamp req) (alatest inst) in
        (set_instance px (<[PrepareReq.Seq req := inst']> (instance px)),
         PrepareRsp.mk ErrOK (value inst') (alatest inst'))
      else
        (px, PrepareRsp.mk ErrRejected (value inst) (alatest inst))
  end.

Definition AcceptCommit (px : Paxos V) (req : CommitReq.t V)
  : Paxos V * CommitRsp.t :=
  match instance px !! CommitReq.Seq req with
  | None =>
      let inst :=
        mkInst StateUndecided (CommitReq.Value req) (CommitReq.Stamp req) 0 in
      (set_instance px (<[CommitReq.Seq req := inst]> (instance px)),
       CommitRsp.mk ErrOK)
  | Some inst =>
      if platest inst <=? CommitReq.Stamp req then
        let inst' :=
          mkInst (status inst) (CommitReq.Value req)
                 (CommitReq.Stamp req) (CommitReq.Stamp req) in
        (set_instance px (<[CommitReq.Seq req := inst']> (instance px)),
         CommitRsp.mk ErrOK)
      else
        (px, CommitRsp.mk ErrRejected)
  end.

(** The instance is written before [px.done[req.Svrid]] is indexed, so a
    panic leaves the written instance behind. *)
Definition AcceptDecided (px : Paxos V) (req : DecideReq.t V)
  : Paxos V * outcome :=
  let inst :=
    match instance px !! DecideReq.Seq req with
    | None => mkInst StateDecided (DecideReq.Value req) 0 0
    | Some inst =>
        mkInst StateDecided (DecideReq.Value req) (platest inst) (alatest inst)
    end in
  let px1 := set_instance px (<[DecideReq.Seq req := inst]> (instance px)) in
  if in_bounds (DecideReq.Svrid req) (done px1) then
    (set_done px1
       (<[Z.to_nat (DecideReq.Svrid req) := DecideReq.Done req]> (done px1)),
     Returned)
  else (px1, Panicked).

(** ** Watermarks *)

Definition Done (px : Paxos V) (seq : Z) : Paxos V * outcome :=
  if in_bounds (me px) (done px) then
    match done px !! Z.to_nat (me px) with
    | Some d =>
        if seq >=? d then
          (set_done px (<[Z.to_nat (me px) := seq]> (done px)), Returned)
        else (px, Returned)
    | None => (px, Panicked)
    end
  else (px, Panicked).

(** The first loop of [Min]: [ans] starts at 0x7fffffff. *)
Definition min_done (d : list Z) : Z :=
  fold_left (fun ans x => if ans >? x then x else ans) d 2147483647.

Definition Min_ans (px : Paxos V) : Z :=
  if decide (length (done px) = 0%nat) then 0 else min_done (done px).

Definition is_decided (inst : PaxosInst V) : bool :=
  bool_decide (status inst = StateDecided).

(** The second loop of [Min]: [delete] on the map that is ranged over,
    of the key the iteration is at. *)
Definition evict (ans : Z) (tbl : gmap Z (PaxosInst V)) : gmap Z (PaxosInst V) :=
  map_fold
    (fun seq inst acc =>
       if (seq <? ans) && is_decided inst then delete seq acc else acc)
    tbl tbl.

Definition Min (px : Paxos V) : Paxos V * Z :=
  let ans := Min_ans px in
  (set_instance px (evict ans (instance px)), int_wrap (ans + 1)).

Definition Status (px : Paxos V) (seq : Z) : bool * option V :=
  match instance px !! seq with
  | Some inst => if is_decided inst then (true, value inst) else (false, None)
  | None => (false, None)
  end.

(** ** Proposer *)

(** One turn of the reply loop of [sendPrepare] on the triple
    [(agreed, highest, nv)]. *)
Definition tally (acc : Z * Z * option V) (rsp : PrepareRsp.t V)
  : Z * Z * option V :=
  let '(agreed, highest, nv) := acc in
  if decide (PrepareRsp.Code rsp = ErrOK) then
    if PrepareRsp.Stamp rsp >? highest then
      (agreed + 1, PrepareRsp.Stamp rsp, PrepareRsp.Value rsp)
    else (agreed + 1, highest, nv)
  else acc.

(** [sendPrepare] after the fan-out: [timestamp] is the clock reading
    taken on entry, [rsps] the replies in the order they leave [ch]. *)
Definition sendPrepare (px : Paxos V) (timestamp : Z)
    (rsps : list (PrepareRsp.t V)) : bool * Z * option V :=
  let '(agreed, _, nv) := fold_left tally rsps (0, 0, None) in
  if agreed <=? Z.of_nat (length (peers px)) `quot` 2 then
    (false, timestamp, nv)
  else (true, timestamp, nv).

Definition count_accept (accept : Z) (rsp : CommitRsp.t) : Z :=
  if decide (CommitRsp.Code rsp = ErrOK) then accept + 1 else accept.

Definition sendCommit (px : Paxos V) (rsps : list CommitRsp.t) : bool :=
  let accept := fold_left count_accept rsps 0 in
  if accept <=? Z.of_nat (length (peers px)) `quot` 2 then false else true.

(** What the network hands to one turn of the loop of [Start]. *)
Record Round := mkRound {
  timestamp : Z;
  prepare_replies : list (PrepareRsp.t V);
  commit_replies : list CommitRsp.t
}.

(** The calls the loop of [Start] makes, with their arguments. *)
Inductive Call :=
| SendPrepare (seq : Z) (v : option V)
| SendCommit (seq : Z) (v : option V) (t : Z)
| SendDecision (seq : Z) (v : option V).

(** Where the goroutine of [Start] stands once the given rounds are
    used up, with the candidate [v] it holds. *)
Inductive Proposer :=
| Decided (v : option V)
| Proposing (v : option V).

(** [if nv != nil { v = nv }] *)
Definition adopt (v nv : option V) : option V :=
  match nv with
  | Some _ => nv
  | None => v
  end.

(** The [for] loop of the goroutine of [Start].  [v] is the captured
    parameter, assigned in place; each [continue] goes on with the
    next round. *)
Fixpoint Start_loop (px : Paxos V) (seq : Z) (v : option V)
    (rounds : list Round) : list Call * Proposer :=
  match rounds with
  | [] => ([], Proposing v)
  | r :: rest =>
      let '(ok, t, nv) := sendPrepare px (timestamp r) (prepare_replies r) in
      if negb ok then
        let '(calls, p) := Start_loop px seq v rest in
        (SendPrepare seq v :: calls, p)
      else
        let v' := adopt v nv in
        if negb (sendCommit px (commit_replies r)) then
          let '(calls, p) := Start_loop px seq v' rest in
          (SendPrepare seq v :: SendCommit seq v' t :: calls, p)
        else
          ([SendPrepare seq v; SendCommit seq v' t; SendDecision seq v'],
           Decided v')
  end.


(** Any handler invocation a peer can receive, and a run of them.  A
    panic ends the process, so the run stops there. *)
Inductive Msg :=
| MPrepare (req : PrepareReq.t)
| MCommit (req : CommitReq.t V)
| MDecide (req : DecideReq.t V).

Definition handle (px : Paxos V) (m : Msg) : Paxos V * outcome :=
  match m with
  | MPrepare req => ((AcceptPrepare px req).1, Returned)
  | MCommit req => ((AcceptCommit px req).1, Returned)
  | MDecide req => AcceptDecided px req
  end.

Fixpoint handle_all (px : Paxos V) (ms : list Msg) : Paxos V :=
  match ms with
  | [] => px
  | m :: rest =>
      match handle px m with
      | (px', Returned) => handle_all px' rest
      | (px', Panicked) => px'
      end
  end.

(** ** The specification's vocabulary *)

(** requiredVotes(n) = floor(n/2) + 1 *)
Definition requiredVotes (n : Z) : Z := n `div` 2 + 1.

Definition prepare_ok (rsp : PrepareRsp.t V) : bool :=
  bool_decide (PrepareRsp.Code rsp = ErrOK).
Definition commit_ok (rsp : CommitRsp.t) : bool :=
  bool_decide (CommitRsp.Code rsp = ErrOK).

(** The number of accept (OK) replies of a broadcast. *)
Definition prepare_votes (rsps : list (PrepareRsp.t V)) : Z :=
  Z.of_nat (length (filter (fun r => prepare_ok r = true) rsps)).
Definition commit_votes (rsps : list CommitRsp.t) : Z :=
  Z.of_nat (length (filter (fun r => commit_ok r = true) rsps)).

End Peer.

Arguments Round : clear implicits.
Arguments Call : clear implicits.
Arguments Proposer : clear implicits.
Arguments Msg : clear implicits.

(** ** Concrete peers used by the examples *)

Definition three_peers : list string := ["A"; "B"; "C"].

(** A peer of a three-peer group that has never heard of any instance. *)
Definition fresh_peer : Paxos string := Make three_peers 0.

(** A peer holding instance 7, decided on "x", promised and accepted at
    ballot 10, with watermarks 4, 6 and -1. *)
Definition busy_peer : Paxos string :=
  mkPaxos three_peers 0
    {[ 7 := mkInst StateDecided (Some "x"%string) 10 10 ]} [4; 6; -1].

(** A one-peer group whose application is done with everything up to
    2^31, holding instance 2^31 - 1, decided. *)
Definition far_peer : Paxos string :=
  (Done (AcceptDecided (Make ["A"] 0)
           (DecideReq.mk 2147483647 (Some "x"%string) 0 (-1))).1
        2147483648).1.

(** *** A contended instance

    Peers A (index 0, the proposer of "mine"), B and C work on instance 7.
    B has accepted "theirs" at ballot 50.  A's first round, at ballot 100,
    reaches A and B in the Prepare phase; before its Accept phase a
    proposer on C prepares ballot 150 at A and at C, so A's own Accept is
    rejected, and the Accepts to B and C are lost.  A's second round, at
    ballot 200, reaches A and C in both phases. *)

Definition mine : option string := Some "mine"%string.
Definition theirs : option string := Some "theirs"%string.

Definition A0 : Paxos string := Make three_peers 0.
Definition B0 : Paxos string :=
  (AcceptCommit (AcceptPrepare (Make three_peers 1) (PrepareReq.mk 7 50)).1
                (CommitReq.mk 7 theirs 50)).1.
Definition C0 : Paxos string := Make three_peers 2.

Definition A1 : Paxos string := (AcceptPrepare A0 (PrepareReq.mk 7 100)).1.
Definition A2 : Paxos string := (AcceptPrepare A1 (PrepareReq.mk 7 150)).1.
Definition C1 : Paxos string := (AcceptPrepare C0 (PrepareReq.mk 7 150)).1.

(** A reply that [call] failed to bring back: the zero [PrepareRsp] with
    [Code] set to [ErrNetwork]. *)
Definition lost : PrepareRsp.t string := PrepareRsp.mk ErrNetwork None 0.

Definition round1 : Round string :=
  mkRound 100
    [(AcceptPrepare A0 (PrepareReq.mk 7 100)).2;
     (AcceptPrepare B0 (PrepareReq.mk 7 100)).2;
     lost]
    [(AcceptCommit A2 (CommitReq.mk 7 theirs 100)).2;
     CommitRsp.mk ErrNetwork;
     CommitRsp.mk ErrNetwork].

Definition round2 : Round string :=
  mkRound 200
    [(AcceptPrepare A2 (PrepareReq.mk 7 200)).2;
     lost;
     (AcceptPrepare C1 (PrepareReq.mk 7 200)).2]
    [(AcceptCommit (AcceptPrepare A2 (PrepareReq.mk 7 200)).1
                   (CommitReq.mk 7 theirs 200)).2;
     CommitRsp.mk ErrNetwork;
     (AcceptCommit (AcceptPrepare C1 (PrepareReq.mk 7 200)).1
                   (CommitReq.mk 7 theirs 200)).2].

(** *** Too few peers in reach

    [round_alone]: B and C are cut off, so A's Prepare only gets A's own
    vote.  [round_half]: the Prepare reaches A and B, the Accept only
    A. *)

Definition round_alone : Round string :=
  mkRound 100 [(AcceptPrepare A0 (PrepareReq.mk 7 100)).2; lost; lost] [].

Definition round_half : Round string :=
  mkRound 100
    [(AcceptPrepare A0 (PrepareReq.mk 7 100)).2;
     (AcceptPrepare B0 (PrepareReq.mk 7 100)).2;
     lost]
    [(AcceptCommit A1 (CommitReq.mk 7 theirs 100)).2;
     CommitRsp.mk ErrNetwork;
     CommitRsp.mk ErrNetwork].

(** *** An Accept that arrives before any Prepare

    B first hears of instance 7 through Accept(7, "theirs", 50); A only
    knows the Prepare of ballot 50.  A then proposes "mine" at ballot 100
    and reaches A and B in both phases. *)



(** The least entry of the watermark array, in the specification's
    words: an entry of the array below or equal to every entry. *)
Definition least_of (d : list Z) (m : Z) : Prop :=
  m ∈ d ∧ ∀ x, x ∈ d → m <= x.

(** "Takes the reject branch": the reply of the handler is [ErrRejected]. *)
Definition rejected {V} (px : Paxos V) (m : Msg V) : Prop :=
  match m with
  | MPrepare req => PrepareRsp.Code (AcceptPrepare px req).2 = ErrRejected
  | MCommit req => CommitRsp.Code (AcceptCommit px req).2 = ErrRejected
  | MDecide _ => False
  end.

(** The calls [cs], then whatever the rest of the loop does. *)
Definition prepend {V} (cs : list (Call V)) (run : list (Call V) * Proposer V)
  : list (Call V) * Proposer V :=
  (cs ++ run.1, run.2).

(** The captured [v] of [Start] once the turn of round [r] is past the
    [if !ok ... else if nv != nil] statement. *)
Definition next_candidate {V} (px : Paxos V) (v : option V) (r : Round V)
  : option V :=
  let '(ok, _, nv) := sendPrepare px (timestamp r) (prepare_replies r) in
  if ok then adopt v nv else v.

(** [r], the [i]-th reply to arrive, is the first OK reply that reports
    the highest accepted ballot of all OK replies. *)
Definition highest_reply {V} (rsps : list (PrepareRsp.t V)) (i : nat)
    (r : PrepareRsp.t V) : Prop :=
  rsps !! i = Some r
  ∧ PrepareRsp.Code r = ErrOK
  ∧ (∀ j r', rsps !! j = Some r' → PrepareRsp.Code r' = ErrOK →
             PrepareRsp.Stamp r' <= PrepareRsp.Stamp r)
  ∧ (∀ j r', (j < i)%nat → rsps !! j = Some r' → PrepareRsp.Code r' = ErrOK →
             PrepareRsp.Stamp r' < PrepareRsp.Stamp r).

(** The instance of [seq] exists and is Decided. *)
Definition decided_at {V} (px : Paxos V) (seq : Z) : Prop :=
  ∃ inst, instance px !! seq = Some inst ∧ status inst = StateDecided.

(** ** Reads and the Decide broadcast *)

Section Reads.
Context {V : Type}.

(** [Max]: [ans] starts at 0 and is raised by every larger key. *)
Definition Max (px : Paxos V) : Z :=
  map_fold (fun i (_ : PaxosInst V) ans => if i >? ans then i else ans)
           0 (instance px).

(** The request [sendDecision] builds for every peer; reading
    [px.done[px.me]] out of range panics, which is [None] here. *)
Definition decision_req (px : Paxos V) (seq : Z) (v : option V)
  : option (DecideReq.t V) :=
  if in_bounds (me px) (done px) then
    d ← done px !! Z.to_nat (me px);
    Some (DecideReq.mk seq v (me px) d)
  else None.

(** The sequence number a message is addressed to. *)
Definition msg_seq (m : Msg V) : Z :=
  match m with
  | MPrepare req => PrepareReq.Seq req
  | MCommit req => CommitReq.Seq req
  | MDecide req => DecideReq.Seq req
  end.

(** The ballot of a Prepare or an Accept is not negative (a clock reading
    of [time.Now().UnixNano()] after 1970). *)
Definition stamp_nonneg (m : Msg V) : Prop :=
  match m with
  | MPrepare req => 0 <= PrepareReq.Stamp req
  | MCommit req => 0 <= CommitReq.Stamp req
  | MDecide _ => True
  end.

Definition is_decide (m : Msg V) : Prop :=
  match m with
  | MDecide _ => True
  | _ => False
  end.

(** [m] is not a Decide for [seq]. *)
Definition no_decide_for (seq : Z) (m : Msg V) : Prop :=
  match m with
  | MDecide req => DecideReq.Seq req ≠ seq
  | _ => True
  end.

(** In every instance the accepted ballot is at most the promised one. *)
Definition ballots_ordered (px : Paxos V) : Prop :=
  ∀ k inst, instance px !! k = Some inst → alatest inst <= platest inst.

(** The candidate a proposer holds. *)
Definition candidate_of (p : Proposer V) : option V :=
  match p with
  | Decided v => v
  | Proposing v => v
  end.

(** Both broadcasts of round [r] reach [requiredVotes] OK replies. *)
Definition quorum_round (px : Paxos V) (r : Round V) : Prop :=
  requiredVotes (Z.of_nat (length (peers px))) <= prepare_votes (prepare_replies r)
  ∧ requiredVotes (Z.of_nat (length (peers px))) <= commit_votes (commit_replies r).

(** A call of [sendDecision]. *)
Definition is_decision (c : Call V) : Prop :=
  match c with
  | SendDecision _ _ => True
  | _ => False
  end.

(** OK replies that report the same accepted ballot carry the same
    value. *)
Definition ballots_name_values (rsps : list (PrepareRsp.t V)) : Prop :=
  ∀ r1 r2, r1 ∈ rsps → r2 ∈ rsps →
    PrepareRsp.Code r1 = ErrOK → PrepareRsp.Code r2 = ErrOK →
    PrepareRsp.Stamp r1 = PrepareRsp.Stamp r2 →
    PrepareRsp.Value r1 = PrepareRsp.Value r2.

End Reads.

(** * Properties of the acceptor handlers *)

Section Acceptor.
Context {V : Type}.
Implicit Types (px : Paxos V) (inst : PaxosInst V).

Lemma AcceptPrepare_fresh px req :
  instance px !! PrepareReq.Seq req = None →
  AcceptPrepare px req =
    (set_instance px
       (<[PrepareReq.Seq req :=
            mkInst StateUndecided None (PrepareReq.Stamp req) 0]> (instance px)),
     PrepareRsp.mk ErrOK None 0).
Proof. intros H. unfold AcceptPrepare. by rewrite H. Qed.

Lemma AcceptPrepare_promise px req inst :
  instance px !! PrepareReq.Seq req = Some inst →
  platest inst <= PrepareReq.Stamp req →
  AcceptPrepare px req =
    (set_instance px
       (<[PrepareReq.Seq req :=
            mkInst (status inst) (value inst) (PrepareReq.Stamp req) (alatest inst)]>
          (instance px)),
     PrepareRsp.mk ErrOK (value inst) (alatest inst)).
Proof.
  intros H Hle. unfold AcceptPrepare. rewrite H.
  destruct (Z.leb_spec (platest inst) (PrepareReq.Stamp req)); [done | lia].
Qed.

Lemma AcceptPrepare_reject px req inst :
  instance px !! PrepareReq.Seq req = Some inst →
  PrepareReq.Stamp req < platest inst →
  AcceptPrepare px req =
    (px, PrepareRsp.mk ErrRejected (value inst) (alatest inst)).
Proof.
  intros H Hlt. unfold AcceptPrepare. rewrite H.
  destruct (Z.leb_spec (platest inst) (PrepareReq.Stamp req)); [lia | done].
Qed.

Lemma AcceptCommit_accept px req inst :
  instance px !! CommitReq.Seq req = Some inst →
  platest inst <= CommitReq.Stamp req →
  AcceptCommit px req =
    (set_instance px
       (<[CommitReq.Seq req :=
            mkInst (status inst) (CommitReq.Value req)
                   (CommitReq.Stamp req) (CommitReq.Stamp req)]> (instance px)),
     CommitRsp.mk ErrOK).
Proof.
  intros H Hle. unfold AcceptCommit. rewrite H.
  destruct (Z.leb_spec (platest inst) (CommitReq.Stamp req)); [done | lia].
Qed.

Lemma AcceptCommit_reject px req inst :
  instance px !! CommitReq.Seq req = Some inst →
  CommitReq.Stamp req < platest inst →
  AcceptCommit px req = (px, CommitRsp.mk ErrRejected).
Proof.
  intros H Hlt. unfold AcceptCommit. rewrite H.
  destruct (Z.leb_spec (platest inst) (CommitReq.Stamp req)); [lia | done].
Qed.

(** A handler replies [ErrRejected] only from the [else] branch of the
    ballot comparison on an existing instance. *)
Lemma AcceptPrepare_rejected_inv px req :
  PrepareRsp.Code (AcceptPrepare px req).2 = ErrRejected →
  ∃ inst, instance px !! PrepareReq.Seq req = Some inst
          ∧ PrepareReq.Stamp req < platest inst.
Proof.
  unfold AcceptPrepare.
  destruct (instance px !! PrepareReq.Seq req) as [inst|] eqn:E; [|done].
  destruct (Z.leb_spec (platest inst) (PrepareReq.Stamp req)); [done|].
  intros _. by exists inst.
Qed.

Lemma AcceptCommit_rejected_inv px req :
  CommitRsp.Code (AcceptCommit px req).2 = ErrRejected →
  ∃ inst, instance px !! CommitReq.Seq req = Some inst
          ∧ CommitReq.Stamp req < platest inst.
Proof.
  unfold AcceptCommit.
  destruct (instance px !! CommitReq.Seq req) as [inst|] eqn:E; [|done].
  destruct (Z.leb_spec (platest inst) (CommitReq.Stamp req)); [done|].
  intros _. by exists inst.
Qed.

(** C3: a Prepare on an existing instance is accepted exactly when its
    ballot is at least the promised ballot (a ballot equal to the promise
    is accepted); on accept the promise becomes the request's ballot and
    nothing else of the instance changes; accepted or rejected, the reply
    carries the instance's accepted value and accepted ballot. *)
Theorem AcceptPrepare_existing px req inst :
  instance px !! PrepareReq.Seq req = Some inst →
  let px' := (AcceptPrepare px req).1 in
  let rsp := (AcceptPrepare px req).2 in
  (PrepareRsp.Code rsp = ErrOK ↔ platest inst <= PrepareReq.Stamp req)
  ∧ (PrepareRsp.Code rsp = ErrRejected ↔ PrepareReq.Stamp req < platest inst)
  ∧ (platest inst = PrepareReq.Stamp req → PrepareRsp.Code rsp = ErrOK)
  ∧ (PrepareRsp.Code rsp = ErrOK →
     instance px' !! PrepareReq.Seq req =
       Some (mkInst (status inst) (value inst)
                    (PrepareReq.Stamp req) (alatest inst)))
  ∧ PrepareRsp.Value rsp = value inst
  ∧ PrepareRsp.Stamp rsp = alatest inst.
Proof.
  intros H.
  destruct (Z.le_gt_cases (platest inst) (PrepareReq.Stamp req)) as [Hle|Hgt].
  - rewrite (AcceptPrepare_promise _ _ _ H Hle). simpl.
    rewrite lookup_insert_eq. repeat split; try done; lia.
  - rewrite (AcceptPrepare_reject _ _ _ H Hgt). simpl.
    repeat split; try done; lia.
Qed.


(** C10: an Accept on a Decided instance with a ballot at least the
    promised ballot replies OK and overwrites the value and both ballots
    with the request's, the status staying Decided; [Status] then reports
    the request's value. *)
Theorem AcceptCommit_overwrites_decided px req inst :
  instance px !! CommitReq.Seq req = Some inst →
  status inst = StateDecided →
  platest inst <= CommitReq.Stamp req →
  let px' := (AcceptCommit px req).1 in
  CommitRsp.Code (AcceptCommit px req).2 = ErrOK
  ∧ instance px' !! CommitReq.Seq req =
      Some (mkInst StateDecided (CommitReq.Value req)
                   (CommitReq.Stamp req) (CommitReq.Stamp req))
  ∧ Status px' (CommitReq.Seq req) = (true, CommitReq.Value req).
Proof.
  intros H Hd Hle. rewrite (AcceptCommit_accept _ _ _ H Hle). simpl.
  unfold Status. simpl. rewrite lookup_insert_eq, Hd. done.
Qed.

(** C9: a Prepare or an Accept that is rejected leaves the peer state,
    and so the whole instance table, as it was. *)
Theorem rejected_leaves_state px (m : Msg V) :
  rejected px m → (handle px m).1 = px.
Proof.
  destruct m as [req|req|req]; simpl; [| |done].
  - intros Hr. destruct (AcceptPrepare_rejected_inv _ _ Hr) as (inst & H & Hlt).
    by rewrite (AcceptPrepare_reject _ _ _ H Hlt).
  - intros Hr. destruct (AcceptCommit_rejected_inv _ _ Hr) as (inst & H & Hlt).
    by rewrite (AcceptCommit_reject _ _ _ H Hlt).
Qed.

Lemma rejected_iff px (m : Msg V) :
  rejected px m ↔
  match m with
  | MPrepare req =>
      ∃ inst, instance px !! PrepareReq.Seq req = Some inst
              ∧ PrepareReq.Stamp req < platest inst
  | MCommit req =>
      ∃ inst, instance px !! CommitReq.Seq req = Some inst
              ∧ CommitReq.Stamp req < platest inst
  | MDecide _ => False
  end.
Proof.
  destruct m as [req|req|req]; simpl; [| |done].
  - split; [apply AcceptPrepare_rejected_inv|].
    intros (inst & H & Hlt). by rewrite (AcceptPrepare_reject _ _ _ H Hlt).
  - split; [apply AcceptCommit_rejected_inv|].
    intros (inst & H & Hlt). by rewrite (AcceptCommit_reject _ _ _ H Hlt).
Qed.

Lemma in_bounds_spec (i : Z) (l : list Z) :
  in_bounds i l = true ↔ 0 <= i < Z.of_nat (length l).
Proof. unfold in_bounds. rewrite andb_true_iff. lia. Qed.

(** C6: a Decide from a peer of the group (its index is an index of the
    watermark array) always returns; the instance of its sequence number
    is created or overwritten with status Decided and the message's
    value, whatever ballots the instance holds, which are kept (0 and 0
    for a new instance); the watermark entry of the sender becomes the
    message's watermark, higher or lower, and no other instance or
    entry changes. *)
Theorem AcceptDecided_overwrites px (req : DecideReq.t V) :
  0 <= DecideReq.Svrid req < Z.of_nat (length (done px)) →
  let px' := (AcceptDecided px req).1 in
  (AcceptDecided px req).2 = Returned
  ∧ instance px' !! DecideReq.Seq req =
      Some (mkInst StateDecided (DecideReq.Value req)
              (from_option platest 0 (instance px !! DecideReq.Seq req))
              (from_option alatest 0 (instance px !! DecideReq.Seq req)))
  ∧ (∀ k, k ≠ DecideReq.Seq req → instance px' !! k = instance px !! k)
  ∧ done px' !! Z.to_nat (DecideReq.Svrid req) = Some (DecideReq.Done req)
  ∧ (∀ j, j ≠ Z.to_nat (DecideReq.Svrid req) → done px' !! j = done px !! j)
  ∧ length (done px') = length (done px).
Proof.
  intros Hb. unfold AcceptDecided. simpl.
  rewrite (proj2 (in_bounds_spec _ _) Hb). simpl.
  rewrite lookup_insert_eq. repeat split.
  - by destruct (instance px !! DecideReq.Seq req).
  - intros k Hk. by rewrite lookup_insert_ne.
  - apply list_lookup_insert_eq. lia.
  - intros j Hj. by apply list_lookup_insert_ne.
  - apply length_insert.
Qed.

(** Out of the array the handler panics, after the instance is written. *)
Lemma AcceptDecided_panics px (req : DecideReq.t V) :
  ¬ (0 <= DecideReq.Svrid req < Z.of_nat (length (done px))) →
  (AcceptDecided px req).2 = Panicked
  ∧ done (AcceptDecided px req).1 = done px.
Proof.
  intros Hb. unfold AcceptDecided. simpl.
  destruct (in_bounds (DecideReq.Svrid req) (done px)) eqn:E; [|done].
  by apply in_bounds_spec in E.
Qed.

(** No handler takes a Decided instance back, however it ends. *)
Lemma handle_keeps_decided px (m : Msg V) seq :
  decided_at px seq → decided_at (handle px m).1 seq.
Proof.
  intros (inst & H & Hd). unfold decided_at.
  assert (∀ (tbl : gmap Z (PaxosInst V)) k i1,
            tbl !! seq = Some inst →
            (k = seq → status i1 = StateDecided) →
            ∃ i2, <[k := i1]> tbl !! seq = Some i2 ∧ status i2 = StateDecided)
    as Hins.
  { intros tbl k i1 Ht Hk. destruct (decide (k = seq)) as [->|Hne].
    - rewrite lookup_insert_eq. eauto.
    - rewrite lookup_insert_ne by done. eauto. }
  destruct m as [req|req|req]; simpl.
  - unfold AcceptPrepare.
    destruct (instance px !! PrepareReq.Seq req) as [i0|] eqn:E.
    + destruct (platest i0 <=? PrepareReq.Stamp req); simpl; [|eauto].
      apply Hins; [done|]. intros Hk. simpl. congruence.
    + simpl. apply Hins; [done|]. intros Hk. congruence.
  - unfold AcceptCommit.
    destruct (instance px !! CommitReq.Seq req) as [i0|] eqn:E.
    + destruct (platest i0 <=? CommitReq.Stamp req); simpl; [|eauto].
      apply Hins; [done|]. intros Hk. simpl. congruence.
    + simpl. apply Hins; [done|]. intros Hk. congruence.
  - unfold AcceptDecided. simpl.
    destruct (in_bounds (DecideReq.Svrid req) (done px)); simpl.
    all: apply Hins; [done|]; intros _.
    all: by destruct (instance px !! DecideReq.Seq req).
Qed.

(** C8: an instance that is Decided is still there and still Decided
    after any sequence of Prepare, Accept and Decide invocations. *)
Theorem Decided_never_reverts px (ms : list (Msg V)) seq inst :
  instance px !! seq = Some inst →
  status inst = StateDecided →
  ∃ inst', instance (handle_all px ms) !! seq = Some inst'
           ∧ status inst' = StateDecided.
Proof.
  intros H Hd. assert (decided_at px seq) as Hdec by (by exists inst).
  clear H Hd inst. revert px Hdec.
  induction ms as [|m ms IH]; intros px Hdec; simpl; [done|].
  pose proof (handle_keeps_decided px m seq Hdec) as Hstep.
  destruct (handle px m) as [px' []]; simpl in *; [by apply IH | done].
Qed.

End Acceptor.

(** * Properties of the proposer *)

Section Proposer.
Context {V : Type}.
Implicit Types (px : Paxos V) (rsps : list (PrepareRsp.t V)) (v nv : option V).

Lemma prepare_votes_cons (r : PrepareRsp.t V) rsps :
  prepare_votes (r :: rsps) =
  (if decide (PrepareRsp.Code r = ErrOK) then 1 else 0) + prepare_votes rsps.
Proof.
  unfold prepare_votes, prepare_ok. rewrite filter_cons.
  destruct (decide (PrepareRsp.Code r = ErrOK)) as [E|E].
  - rewrite decide_True by (by rewrite bool_decide_eq_true). simpl length. lia.
  - rewrite decide_False by (by rewrite bool_decide_eq_true). lia.
Qed.

Lemma commit_votes_cons (r : CommitRsp.t) (rsps : list CommitRsp.t) :
  commit_votes (r :: rsps) =
  (if decide (CommitRsp.Code r = ErrOK) then 1 else 0) + commit_votes rsps.
Proof.
  unfold commit_votes, commit_ok. rewrite filter_cons.
  destruct (decide (CommitRsp.Code r = ErrOK)) as [E|E].
  - rewrite decide_True by (by rewrite bool_decide_eq_true). simpl length. lia.
  - rewrite decide_False by (by rewrite bool_decide_eq_true). lia.
Qed.

Lemma prepare_votes_bounds rsps :
  0 <= prepare_votes rsps <= Z.of_nat (length rsps).
Proof.
  unfold prepare_votes. pose proof (length_filter (λ r, prepare_ok r = true) rsps). lia.
Qed.

(** [agreed] counts the OK replies. *)
Lemma tally_agreed rsps (agreed highest : Z) nv :
  (fold_left tally rsps (agreed, highest, nv)).1.1 = agreed + prepare_votes rsps.
Proof.
  revert agreed highest nv.
  induction rsps as [|r rsps IH]; intros agreed highest nv.
  - unfold prepare_votes. simpl. lia.
  - rewrite prepare_votes_cons.
    change (fold_left tally (r :: rsps) (agreed, highest, nv))
      with (fold_left tally rsps (tally (agreed, highest, nv) r)).
    unfold tally at 2.
    destruct (decide (PrepareRsp.Code r = ErrOK)).
    + destruct (PrepareRsp.Stamp r >? highest); rewrite IH; lia.
    + rewrite IH. lia.
Qed.

Lemma count_accept_votes (rsps : list CommitRsp.t) (accept : Z) :
  fold_left count_accept rsps accept = accept + commit_votes rsps.
Proof.
  revert accept. induction rsps as [|r rsps IH]; intros accept.
  - unfold commit_votes. simpl. lia.
  - rewrite commit_votes_cons. simpl. rewrite IH. unfold count_accept.
    destruct (decide (CommitRsp.Code r = ErrOK)); lia.
Qed.

Lemma sendPrepare_ok px ts rsps :
  (sendPrepare px ts rsps).1.1 = true ↔
  Z.of_nat (length (peers px)) `quot` 2 < prepare_votes rsps.
Proof.
  unfold sendPrepare. pose proof (tally_agreed rsps 0 0 None) as Ha.
  destruct (fold_left tally rsps (0, 0, None)) as [[agreed highest] nv].
  simpl in Ha. subst agreed.
  destruct (Z.leb_spec (0 + prepare_votes rsps)
              (Z.of_nat (length (peers px)) `quot` 2)); simpl; split;
    intros; try done; lia.
Qed.

Lemma sendPrepare_timestamp px ts rsps : (sendPrepare px ts rsps).1.2 = ts.
Proof.
  unfold sendPrepare.
  destruct (fold_left tally rsps (0, 0, None)) as [[agreed highest] nv].
  by destruct (agreed <=? _).
Qed.

Lemma sendCommit_ok px (rsps : list CommitRsp.t) :
  sendCommit px rsps = true ↔
  Z.of_nat (length (peers px)) `quot` 2 < commit_votes rsps.
Proof.
  unfold sendCommit. rewrite count_accept_votes.
  destruct (Z.leb_spec (0 + commit_votes rsps)
              (Z.of_nat (length (peers px)) `quot` 2)); split;
    intros; try done; lia.
Qed.

(** The three ways a turn of the loop of [Start] goes. *)
Lemma Start_loop_prepare_failed px seq v (r : Round V) rest :
  (sendPrepare px (timestamp r) (prepare_replies r)).1.1 = false →
  Start_loop px seq v (r :: rest) =
  prepend [SendPrepare seq v] (Start_loop px seq v rest).
Proof.
  intros H. simpl.
  destruct (sendPrepare px (timestamp r) (prepare_replies r)) as [[ok t] nv].
  simpl in H. subst ok. simpl.
  by destruct (Start_loop px seq v rest).
Qed.

Lemma Start_loop_commit_failed px seq v (r : Round V) rest :
  (sendPrepare px (timestamp r) (prepare_replies r)).1.1 = true →
  sendCommit px (commit_replies r) = false →
  Start_loop px seq v (r :: rest) =
  prepend [SendPrepare seq v; SendCommit seq (next_candidate px v r) (timestamp r)]
          (Start_loop px seq (next_candidate px v r) rest).
Proof.
  intros H Hc. simpl. unfold next_candidate.
  pose proof (sendPrepare_timestamp px (timestamp r) (prepare_replies r)) as Ht.
  destruct (sendPrepare px (timestamp r) (prepare_replies r)) as [[ok t] nv].
  simpl in H, Ht. subst ok t. simpl. rewrite Hc. simpl.
  by destruct (Start_loop px seq (adopt v nv) rest).
Qed.

Lemma Start_loop_decided px seq v (r : Round V) rest :
  (sendPrepare px (timestamp r) (prepare_replies r)).1.1 = true →
  sendCommit px (commit_replies r) = true →
  Start_loop px seq v (r :: rest) =
  ([SendPrepare seq v; SendCommit seq (next_candidate px v r) (timestamp r);
    SendDecision seq (next_candidate px v r)],
   Decided (next_candidate px v r)).
Proof.
  intros H Hc. simpl. unfold next_candidate.
  pose proof (sendPrepare_timestamp px (timestamp r) (prepare_replies r)) as Ht.
  destruct (sendPrepare px (timestamp r) (prepare_replies r)) as [[ok t] nv].
  simpl in H, Ht. subst ok t. simpl. by rewrite Hc.
Qed.

(** Every turn opens with [sendPrepare] on the candidate held then. *)
Lemma Start_loop_first_call px seq v (r : Round V) rest :
  head (Start_loop px seq v (r :: rest)).1 = Some (SendPrepare seq v).
Proof.
  simpl.
  destruct (sendPrepare px (timestamp r) (prepare_replies r)) as [[ok t] nv].
  destruct ok; simpl.
  - destruct (sendCommit px (commit_replies r)); simpl; [done|].
    by destruct (Start_loop px seq (adopt v nv) rest).
  - by destruct (Start_loop px seq v rest).
Qed.

Lemma highest_reply_here (x : PrepareRsp.t V) rsps :
  PrepareRsp.Code x = ErrOK →
  (∀ j r', rsps !! j = Some r' → PrepareRsp.Code r' = ErrOK →
           PrepareRsp.Stamp r' <= PrepareRsp.Stamp x) →
  highest_reply (x :: rsps) 0 x.
Proof.
  intros Hx Hall. unfold highest_reply. split_and!; [done|done| |].
  - intros [|j] r' Hj Hr'; simpl in Hj; [simplify_eq; lia|eauto].
  - intros j r' Hj. lia.
Qed.

Lemma highest_reply_later (x : PrepareRsp.t V) rsps i r :
  highest_reply rsps i r →
  (PrepareRsp.Code x = ErrOK → PrepareRsp.Stamp x < PrepareRsp.Stamp r) →
  highest_reply (x :: rsps) (S i) r.
Proof.
  intros (Hi & Hok & Hmax & Hfirst) Hx. unfold highest_reply.
  split_and!; [done|done| |].
  - intros [|j] r' Hj Hr'; simpl in Hj; [|eauto].
    simplify_eq. specialize (Hx Hr'). lia.
  - intros [|j] r' Hji Hj Hr'; simpl in Hj; [simplify_eq; eauto|].
    eapply Hfirst; [|done..]. lia.
Qed.

Lemma all_below_cons (x : PrepareRsp.t V) rsps (h : Z) :
  (PrepareRsp.Code x = ErrOK → PrepareRsp.Stamp x <= h) →
  (∀ j r', rsps !! j = Some r' → PrepareRsp.Code r' = ErrOK →
           PrepareRsp.Stamp r' <= h) →
  ∀ j r', (x :: rsps) !! j = Some r' → PrepareRsp.Code r' = ErrOK →
          PrepareRsp.Stamp r' <= h.
Proof.
  intros Hx Hall [|j] r' Hj Hr'; simpl in Hj; [simplify_eq; eauto|eauto].
Qed.

(** What the reply loop of [sendPrepare] leaves in [highest] and [nv]:
    either no OK reply went above the initial [highest], or they are
    the ballot and value of the first OK reply with the highest ballot. *)
Lemma tally_highest rsps (agreed highest : Z) nv :
  let res := fold_left tally rsps (agreed, highest, nv) in
  (res.1.2 = highest ∧ res.2 = nv
   ∧ ∀ j r', rsps !! j = Some r' → PrepareRsp.Code r' = ErrOK →
             PrepareRsp.Stamp r' <= highest)
  ∨ (∃ i r, highest_reply rsps i r ∧ highest < PrepareRsp.Stamp r
            ∧ res.1.2 = PrepareRsp.Stamp r ∧ res.2 = PrepareRsp.Value r).
Proof.
  revert agreed highest nv.
  induction rsps as [|x rsps IH]; intros agreed highest nv; simpl.
  { left. split_and!; [done|done|]. intros j r' Hj. by destruct j. }
  destruct (decide (PrepareRsp.Code x = ErrOK)) as [Hx|Hx].
  - destruct (Z.gtb_spec (PrepareRsp.Stamp x) highest) as [Hgt|Hle].
    + destruct (IH (agreed + 1) (PrepareRsp.Stamp x) (PrepareRsp.Value x))
        as [(Hh & Hn & Hall)|(i & r & Hr & Hlt & Hh & Hn)].
      * right. exists 0%nat, x. split_and!; [|lia|done|done].
        by apply highest_reply_here.
      * right. exists (S i), r. split_and!; [|lia|done|done].
        apply highest_reply_later; [done|]. intros _. lia.
    + destruct (IH (agreed + 1) highest nv)
        as [(Hh & Hn & Hall)|(i & r & Hr & Hlt & Hh & Hn)].
      * left. split_and!; [done|done|]. apply all_below_cons; [|done]. intros _. lia.
      * right. exists (S i), r. split_and!; [|done|done|done].
        apply highest_reply_later; [done|]. intros _. lia.
  - destruct (IH agreed highest nv)
      as [(Hh & Hn & Hall)|(i & r & Hr & Hlt & Hh & Hn)].
    + left. split_and!; [done|done|]. by apply all_below_cons.
    + right. exists (S i), r. split_and!; [|done|done|done].
      by apply highest_reply_later.
Qed.

Lemma sendPrepare_nv px ts rsps :
  (sendPrepare px ts rsps).2 = (fold_left tally rsps (0, 0, None)).2.
Proof.
  unfold sendPrepare.
  destruct (fold_left tally rsps (0, 0, None)) as [[agreed highest] nv].
  by destruct (agreed <=? _).
Qed.

Lemma next_candidate_ok px v (r : Round V) :
  (sendPrepare px (timestamp r) (prepare_replies r)).1.1 = true →
  next_candidate px v r =
  adopt v (sendPrepare px (timestamp r) (prepare_replies r)).2.
Proof.
  unfold next_candidate.
  destruct (sendPrepare px (timestamp r) (prepare_replies r)) as [[ok t] nv].
  simpl. by intros ->.
Qed.

(** Without the Prepare quorum the turn ends at [continue] and the
    candidate is untouched, whatever the replies carry. *)
Lemma next_candidate_no_quorum px v (r : Round V) :
  (sendPrepare px (timestamp r) (prepare_replies r)).1.1 = false →
  next_candidate px v r = v.
Proof.
  unfold next_candidate.
  destruct (sendPrepare px (timestamp r) (prepare_replies r)) as [[ok t] nv].
  simpl. by intros ->.
Qed.

Lemma requiredVotes_quot (n : nat) :
  requiredVotes (Z.of_nat n) = Z.of_nat n `quot` 2 + 1.
Proof. unfold requiredVotes. rewrite Z.quot_div_nonneg by lia. done. Qed.

(** C5: with n peers, a Prepare round and an Accept round each succeed
    exactly when the OK replies number more than n/2 (integer division),
    that is at least requiredVotes(n) = floor(n/2) + 1; with one vote
    fewer the round fails and the loop of [Start] goes on with a new
    Prepare. *)
Theorem quorum_rule px seq v (r : Round V) (rest : list (Round V)) :
  let n := Z.of_nat (length (peers px)) in
  let prepared := (sendPrepare px (timestamp r) (prepare_replies r)).1.1 in
  let accepted := sendCommit px (commit_replies r) in
  (prepared = true ↔ n `div` 2 < prepare_votes (prepare_replies r))
  ∧ (prepared = true ↔ requiredVotes n <= prepare_votes (prepare_replies r))
  ∧ (accepted = true ↔ n `div` 2 < commit_votes (commit_replies r))
  ∧ (accepted = true ↔ requiredVotes n <= commit_votes (commit_replies r))
  ∧ (prepare_votes (prepare_replies r) = requiredVotes n - 1 →
     prepared = false
     ∧ Start_loop px seq v (r :: rest) =
       prepend [SendPrepare seq v] (Start_loop px seq v rest))
  ∧ (prepared = true →
     commit_votes (commit_replies r) = requiredVotes n - 1 →
     accepted = false
     ∧ Start_loop px seq v (r :: rest) =
       prepend [SendPrepare seq v;
                SendCommit seq (next_candidate px v r) (timestamp r)]
               (Start_loop px seq (next_candidate px v r) rest)).
Proof.
  intros n prepared accepted.
  pose proof (sendPrepare_ok px (timestamp r) (prepare_replies r)) as Hp.
  pose proof (sendCommit_ok px (commit_replies r)) as Hc.
  pose proof (requiredVotes_quot (length (peers px))) as Hq.
  fold n in Hp, Hc, Hq. fold prepared in Hp. fold accepted in Hc.
  assert (n `div` 2 = n `quot` 2) as Hd by (unfold requiredVotes in Hq; lia).
  split_and!.
  - rewrite Hp. lia.
  - rewrite Hp. lia.
  - rewrite Hc. lia.
  - rewrite Hc. lia.
  - intros Hv. assert (prepared = false) as Hf.
    { destruct prepared; [|done]. assert (n `quot` 2 < prepare_votes (prepare_replies r)) by (by apply Hp). lia. }
    split; [done|]. by apply Start_loop_prepare_failed.
  - intros Hok Hv. assert (accepted = false) as Hf.
    { destruct accepted; [|done]. assert (n `quot` 2 < commit_votes (commit_replies r)) by (by apply Hc). lia. }
    split; [done|]. by apply Start_loop_commit_failed.
Qed.

(** C1, as the code has it: when the Accept broadcast of a round misses
    the quorum, the loop goes back to Prepare holding the candidate it
    has just broadcast, which is the value adopted from the Prepare
    replies of that round if there was one and the candidate of the
    round otherwise; the next [sendPrepare] is called with it. *)
Theorem Start_retry_keeps_candidate px seq v (r : Round V) (rest : list (Round V)) :
  (sendPrepare px (timestamp r) (prepare_replies r)).1.1 = true →
  sendCommit px (commit_replies r) = false →
  let nv := (sendPrepare px (timestamp r) (prepare_replies r)).2 in
  Start_loop px seq v (r :: rest) =
    prepend [SendPrepare seq v; SendCommit seq (adopt v nv) (timestamp r)]
            (Start_loop px seq (adopt v nv) rest)
  ∧ (rest ≠ [] →
     head (Start_loop px seq (adopt v nv) rest).1 =
     Some (SendPrepare seq (adopt v nv)))
  ∧ (rest = [] →
     (Start_loop px seq v (r :: rest)).2 = Proposing (adopt v nv)).
Proof.
  intros Hp Hc nv. rewrite (Start_loop_commit_failed _ _ _ _ _ Hp Hc).
  rewrite (next_candidate_ok _ _ _ Hp). fold nv. split_and!; [done| |].
  - destruct rest as [|r' rest']; [done|]. intros _. apply Start_loop_first_call.
  - by intros ->.
Qed.


End Proposer.

(** * Properties of the watermark *)

Section Watermark.
Context {V : Type}.
Implicit Types (px : Paxos V) (tbl : gmap Z (PaxosInst V)).

Lemma min_fold_spec (d : list Z) (a : Z) :
  let m := fold_left (λ ans x : Z, if ans >? x then x else ans) d a in
  m <= a ∧ (∀ x, x ∈ d → m <= x) ∧ (m = a ∨ m ∈ d).
Proof.
  revert a. induction d as [|y d IH]; intros a; simpl.
  { split_and!; [lia| |by left]. intros x Hx. by apply elem_of_nil in Hx. }
  destruct (Z.gtb_spec a y) as [Hgt|Hle].
  - destruct (IH y) as (H1 & H2 & H3). split_and!; [lia| |].
    + intros x [->|Hx]%elem_of_cons; [done|eauto].
    + right. destruct H3 as [->|H3]; [left|by right].
  - destruct (IH a) as (H1 & H2 & H3). split_and!; [lia| |].
    + intros x [->|Hx]%elem_of_cons; [lia|eauto].
    + destruct H3 as [->|H3]; [by left|right; by right].
Qed.

(** [ans] after the first loop never exceeds 0x7fffffff. *)
Lemma min_done_cap (d : list Z) : min_done d <= 2147483647.
Proof. by destruct (min_fold_spec d 2147483647) as (H & _ & _). Qed.

(** As soon as one entry is at most 0x7fffffff, the first loop finds
    the least entry. *)
Lemma min_done_least (d : list Z) :
  (∃ x, x ∈ d ∧ x <= 2147483647) → least_of d (min_done d).
Proof.
  intros (x & Hx & Hle). unfold least_of, min_done.
  destruct (min_fold_spec d 2147483647) as (H1 & H2 & H3). simpl in *.
  split; [|done]. destruct H3 as [H3|H3]; [|done].
  assert (x = 2147483647) as Hx' by (specialize (H2 x Hx); lia).
  rewrite H3. by rewrite <- Hx'.
Qed.

(** The second loop of [Min], key by key. *)
Lemma evict_lookup (ans : Z) tbl (k : Z) :
  evict ans tbl !! k =
  match tbl !! k with
  | Some inst => if (k <? ans) && is_decided inst then None else Some inst
  | None => None
  end.
Proof.
  unfold evict.
  enough (∀ (m0 : gmap Z (PaxosInst V)) k0,
    map_fold (λ seq inst acc,
       if (seq <? ans) && is_decided inst then delete seq acc else acc) m0 tbl
      !! k0 =
    match tbl !! k0 with
    | Some inst => if (k0 <? ans) && is_decided inst then None else m0 !! k0
    | None => m0 !! k0
    end) as Hgen.
  { rewrite (Hgen tbl k). destruct (tbl !! k) as [inst|] eqn:E; [|done].
    by destruct ((k <? ans) && is_decided inst). }
  intros m0.
  apply (map_fold_weak_ind
    (λ (acc : gmap Z (PaxosInst V)) (m : gmap Z (PaxosInst V)),
       ∀ k0, acc !! k0 =
         match m !! k0 with
         | Some inst => if (k0 <? ans) && is_decided inst then None else m0 !! k0
         | None => m0 !! k0
         end)).
  - intros k'. by rewrite lookup_empty.
  - intros i x m r Hi IH k'. destruct (decide (i = k')) as [->|Hne].
    + rewrite lookup_insert_eq.
      destruct ((k' <? ans) && is_decided x).
      * by rewrite lookup_delete_eq.
      * by rewrite IH, Hi.
    + rewrite lookup_insert_ne by done.
      destruct ((i <? ans) && is_decided x).
      * rewrite lookup_delete_ne by done. apply IH.
      * apply IH.
Qed.

Lemma int_wrap_id (z : Z) : int_range z → int_wrap z = z.
Proof.
  unfold int_range, int_wrap. intros Hz.
  rewrite Z.mod_small by lia. lia.
Qed.

(** [Min] on a peer with at least one watermark entry at most
    0x7fffffff: it returns one more than the least entry [m], and
    removes exactly the Decided instances below [m]; nothing Undecided
    goes. *)
Lemma Min_below_cap px :
  (∃ x, x ∈ done px ∧ - 2 ^ 63 <= x <= 2147483647) →
  Forall int_range (done px) →
  ∃ m, least_of (done px) m
       ∧ (Min px).2 = m + 1
       ∧ done (Min px).1 = done px
       ∧ ∀ k, instance (Min px).1 !! k =
              match instance px !! k with
              | Some inst =>
                  if bool_decide (k < m ∧ status inst = StateDecided)
                  then None else Some inst
              | None => None
              end.
Proof.
  intros (x & Hx & Hlo & Hhi) Hr. exists (min_done (done px)).
  assert (least_of (done px) (min_done (done px))) as Hleast
    by (apply min_done_least; eauto).
  assert (Min_ans px = min_done (done px)) as Hans.
  { unfold Min_ans. destruct (decide (length (done px) = 0%nat)) as [E|E]; [|done].
    apply nil_length_inv in E. rewrite E in Hx. by apply elem_of_nil in Hx. }
  split_and!; [done| |done|].
  - unfold Min. simpl. rewrite Hans. apply int_wrap_id.
    destruct Hleast as [Hin Hmin]. pose proof (min_done_cap (done px)).
    rewrite Forall_forall in Hr. specialize (Hr _ Hin).
    unfold int_range in *. lia.
  - intros k. unfold Min. simpl. rewrite Hans, evict_lookup.
    destruct (instance px !! k) as [inst|]; [|done].
    unfold is_decided.
    destruct (Z.ltb_spec k (min_done (done px)));
      destruct (decide (status inst = StateDecided)).
    all: simpl.
    all: try (rewrite bool_decide_eq_true_2 by done).
    all: try (rewrite bool_decide_eq_false_2 by done).
    all: simpl.
    all: try (rewrite bool_decide_eq_true_2 by done; done).
    all: rewrite bool_decide_eq_false_2; [done|]; intros [? ?]; try done; lia.
Qed.

(** [Min] never removes an Undecided instance, and never an instance
    at or above the value of [ans]. *)
Lemma Min_keeps px (k : Z) inst :
  instance px !! k = Some inst →
  status inst = StateUndecided ∨ Min_ans px <= k →
  instance (Min px).1 !! k = Some inst.
Proof.
  intros H Hk. unfold Min. simpl. rewrite evict_lookup, H.
  destruct Hk as [Hu|Hge].
  - unfold is_decided. rewrite Hu.
    rewrite bool_decide_eq_false_2 by done. by rewrite andb_false_r.
  - destruct (Z.ltb_spec k (Min_ans px)); [lia|done].
Qed.

End Watermark.

(** C7 on [far_peer]: the application has called Done(2147483648) on a
    one-peer group, so the least watermark is 2147483648; [Min] returns
    2147483648, not 2147483649, and keeps the Decided instance
    2147483647, which lies below the least watermark. *)
Theorem Min_stops_at_cap :
  done far_peer = [2147483648]
  ∧ least_of (done far_peer) 2147483648
  ∧ (Min far_peer).2 = 2147483648
  ∧ (Min far_peer).2 ≠ 2147483648 + 1
  ∧ instance far_peer !! 2147483647 =
      Some (mkInst StateDecided (Some "x"%string) 0 0)
  ∧ instance (Min far_peer).1 !! 2147483647 =
      Some (mkInst StateDecided (Some "x"%string) 0 0).
Proof.
  assert (done far_peer = [2147483648]) as Hd by reflexivity.
  assert (instance far_peer !! 2147483647 =
          Some (mkInst StateDecided (Some "x"%string) 0 0)) as Hi
    by reflexivity.
  split_and!; [done| |reflexivity|done|done|].
  - rewrite Hd. split; [by apply list_elem_of_singleton|].
    intros x ->%list_elem_of_singleton. done.
  - change (instance (Min far_peer).1)
      with (evict (Min_ans far_peer) (instance far_peer)).
    rewrite evict_lookup, Hi. reflexivity.
Qed.


(** * The theorems on concrete peers *)


Lemma round2_replies :
  prepare_replies round2 =
    [PrepareRsp.mk ErrOK None 0; lost; PrepareRsp.mk ErrOK None 0]
  ∧ commit_replies round2 =
    [CommitRsp.mk ErrOK; CommitRsp.mk ErrNetwork; CommitRsp.mk ErrOK].
Proof. split; reflexivity. Qed.


(** C1 fails as stated: started with "mine", the proposer adopts "theirs"
    in round 1, misses the Accept quorum, and opens round 2 with
    [sendPrepare(7, "theirs")]; round 2 brings no value back and the
    proposer decides "theirs".  Had the candidate been reset, the run
    would go on as a run started with "mine" does. *)
Lemma Start_retry_resets_counterexample :
  (sendPrepare A0 (timestamp round1) (prepare_replies round1)).1.1 = true
  ∧ sendCommit A0 (commit_replies round1) = false
  ∧ Start_loop A0 7 mine [round1; round2] =
      ([SendPrepare 7 mine; SendCommit 7 theirs 100;
        SendPrepare 7 theirs; SendCommit 7 theirs 200; SendDecision 7 theirs],
       Decided theirs)
  ∧ Start_loop A0 7 mine [round1; round2] ≠
      prepend [SendPrepare 7 mine; SendCommit 7 theirs 100]
              (Start_loop A0 7 mine [round2]).
Proof. split_and!; [reflexivity..|]. intros H. vm_compute in H. discriminate H. Qed.



(** C3 on [busy_peer]: a Prepare for instance 7 at the promised ballot 10
    itself is accepted. *)
Lemma AcceptPrepare_existing_witness :
  instance busy_peer !! 7 = Some (mkInst StateDecided (Some "x"%string) 10 10)
  ∧ PrepareRsp.Code (AcceptPrepare busy_peer (PrepareReq.mk 7 10)).2 = ErrOK
  ∧ PrepareRsp.Value (AcceptPrepare busy_peer (PrepareReq.mk 7 10)).2 =
      Some "x"%string
  ∧ PrepareRsp.Stamp (AcceptPrepare busy_peer (PrepareReq.mk 7 10)).2 = 10.
Proof.
  assert (instance busy_peer !! PrepareReq.Seq (PrepareReq.mk 7 10) =
          Some (mkInst StateDecided (Some "x"%string) 10 10)) as H
    by reflexivity.
  destruct (AcceptPrepare_existing busy_peer (PrepareReq.mk 7 10) _ H)
    as (_ & _ & Heq & _ & Hv & Hs).
  split_and!; [exact H | apply Heq; reflexivity | exact Hv | exact Hs].
Defined.


(** C10 on [busy_peer]: instance 7 is decided on "x"; Accept(7, "z", 10)
    is accepted and [Status] reports "z". *)
Lemma AcceptCommit_overwrites_decided_witness :
  Status busy_peer 7 = (true, Some "x"%string)
  ∧ Status (AcceptCommit busy_peer (CommitReq.mk 7 (Some "z"%string) 10)).1 7 =
      (true, Some "z"%string).
Proof.
  split; [reflexivity|].
  refine (proj2 (proj2
    (AcceptCommit_overwrites_decided busy_peer
       (CommitReq.mk 7 (Some "z"%string) 10)
       (mkInst StateDecided (Some "x"%string) 10 10) _ _ _))).
  - reflexivity.
  - reflexivity.
  - simpl. lia.
Defined.

(** C9 on [busy_peer]: Accept(7, "z", 5) is below the promise 10. *)
Lemma rejected_leaves_state_witness :
  rejected busy_peer (MCommit (CommitReq.mk 7 (Some "z"%string) 5))
  ∧ (handle busy_peer (MCommit (CommitReq.mk 7 (Some "z"%string) 5))).1 =
      busy_peer.
Proof.
  assert (rejected busy_peer (MCommit (CommitReq.mk 7 (Some "z"%string) 5)))
    as H by reflexivity.
  split; [exact H | exact (rejected_leaves_state _ _ H)].
Defined.

(** C6 on [busy_peer]: a Decide from peer 1 with watermark 2 lowers the
    entry of peer 1 from 6 to 2 and overwrites the value of instance 7. *)
Lemma AcceptDecided_overwrites_witness :
  done busy_peer !! 1%nat = Some 6
  ∧ done (AcceptDecided busy_peer (DecideReq.mk 7 (Some "y"%string) 1 2)).1
      !! 1%nat = Some 2
  ∧ instance (AcceptDecided busy_peer (DecideReq.mk 7 (Some "y"%string) 1 2)).1
      !! 7 = Some (mkInst StateDecided (Some "y"%string) 10 10).
Proof.
  assert (0 <= DecideReq.Svrid (DecideReq.mk 7 (Some "y"%string) 1 2)
          < Z.of_nat (length (done busy_peer))) as H by (simpl; lia).
  destruct (AcceptDecided_overwrites busy_peer
              (DecideReq.mk 7 (Some "y"%string) 1 2) H)
    as (_ & Hi & _ & Hd & _).
  split_and!; [reflexivity | exact Hd | exact Hi].
Defined.

(** C8 on [busy_peer]: instance 7 stays Decided through a Prepare, an
    Accept, a Decide for another instance and a Decide for itself. *)
Lemma Decided_never_reverts_witness :
  ∃ inst',
    instance
      (handle_all busy_peer
         [MPrepare (PrepareReq.mk 7 20);
          MCommit (CommitReq.mk 7 (Some "z"%string) 30);
          MDecide (DecideReq.mk 8 (Some "w"%string) 2 3);
          MDecide (DecideReq.mk 7 (Some "y"%string) 1 5)]) !! 7 = Some inst'
    ∧ status inst' = StateDecided.
Proof.
  apply (Decided_never_reverts busy_peer _ 7
           (mkInst StateDecided (Some "x"%string) 10 10)); reflexivity.
Defined.

(** C5 on a three-peer group: requiredVotes(3) = 2.  [round_alone] has
    one OK reply in its Prepare phase; [round_half] has two, and one in
    its Accept phase.  Both are one vote short, and the loop goes on. *)
Lemma quorum_rule_witness :
  requiredVotes 3 = 2
  ∧ prepare_votes (prepare_replies round_alone) = 1
  ∧ Start_loop A0 7 mine [round_alone; round2] =
      prepend [SendPrepare 7 mine] (Start_loop A0 7 mine [round2])
  ∧ prepare_votes (prepare_replies round_half) = 2
  ∧ commit_votes (commit_replies round_half) = 1
  ∧ Start_loop A0 7 mine [round_half; round2] =
      prepend [SendPrepare 7 mine; SendCommit 7 theirs 100]
              (Start_loop A0 7 theirs [round2]).
Proof.
  destruct (quorum_rule A0 7 mine round_alone [round2])
    as (_ & _ & _ & _ & Hprep & _).
  destruct (quorum_rule A0 7 mine round_half [round2])
    as (_ & _ & _ & _ & _ & Hacc).
  pose proof (Hprep ltac:(reflexivity)) as [_ Hrun1].
  pose proof (Hacc ltac:(reflexivity) ltac:(reflexivity)) as [_ Hrun2].
  split_and!;
    [reflexivity | reflexivity | exact Hrun1
     | reflexivity | reflexivity | exact Hrun2].
Defined.

(** C1, amended, on the contended instance: after the failed Accept of
    round 1 the proposer goes on with "theirs". *)
Lemma Start_retry_keeps_candidate_witness :
  (sendPrepare A0 (timestamp round1) (prepare_replies round1)).1.1 = true
  ∧ sendCommit A0 (commit_replies round1) = false
  ∧ adopt mine (sendPrepare A0 (timestamp round1) (prepare_replies round1)).2
    = theirs
  ∧ head (Start_loop A0 7 theirs [round2]).1 = Some (SendPrepare 7 theirs).
Proof.
  assert ((sendPrepare A0 (timestamp round1) (prepare_replies round1)).1.1 = true)
    as Hp by reflexivity.
  assert (sendCommit A0 (commit_replies round1) = false) as Hc by reflexivity.
  destruct (Start_retry_keeps_candidate A0 7 mine round1 [round2] Hp Hc)
    as (_ & Hnext & _).
  split_and!; [exact Hp | exact Hc | reflexivity | by apply Hnext].
Defined.


(** * Further properties of the handlers *)

Section Handlers.
Context {V : Type}.
Implicit Types (px : Paxos V) (inst : PaxosInst V) (m : Msg V).

(** The table [AcceptDecided] leaves, whether or not it goes on to
    panic on the watermark. *)
Lemma AcceptDecided_instance px (req : DecideReq.t V) :
  instance (AcceptDecided px req).1 =
  <[DecideReq.Seq req :=
      mkInst StateDecided (DecideReq.Value req)
        (from_option platest 0 (instance px !! DecideReq.Seq req))
        (from_option alatest 0 (instance px !! DecideReq.Seq req))]>
    (instance px).
Proof.
  unfold AcceptDecided. simpl.
  destruct (in_bounds (DecideReq.Svrid req) (done px)); simpl;
    by destruct (instance px !! DecideReq.Seq req).
Qed.

(** What one handler call does to the instance of any sequence number:
    nothing away from the addressed one, and there it leaves an instance
    whose promise is not below the old one. *)
Lemma handle_lookup px m k :
  (k ≠ msg_seq m → instance (handle px m).1 !! k = instance px !! k)
  ∧ (∀ inst, instance px !! k = Some inst →
       ∃ inst', instance (handle px m).1 !! k = Some inst'
                ∧ platest inst <= platest inst').
Proof.
  destruct m as [req|req|req]; simpl.
  - unfold AcceptPrepare.
    destruct (instance px !! PrepareReq.Seq req) as [i0|] eqn:E.
    + destruct (Z.leb_spec (platest i0) (PrepareReq.Stamp req)); simpl.
      * split; [intros Hk; by rewrite lookup_insert_ne|].
        intros inst Hi. destruct (decide (PrepareReq.Seq req = k)) as [<-|Hne].
        -- rewrite lookup_insert_eq. simplify_eq. eexists; split; [done|]. simpl. lia.
        -- rewrite lookup_insert_ne by done. exists inst. split; [done|lia].
      * split; [done|]. intros inst Hi. exists inst. split; [done|lia].
    + simpl. split; [intros Hk; by rewrite lookup_insert_ne|].
      intros inst Hi. destruct (decide (PrepareReq.Seq req = k)) as [<-|Hne].
      * congruence.
      * rewrite lookup_insert_ne by done. exists inst. split; [done|lia].
  - unfold AcceptCommit.
    destruct (instance px !! CommitReq.Seq req) as [i0|] eqn:E.
    + destruct (Z.leb_spec (platest i0) (CommitReq.Stamp req)); simpl.
      * split; [intros Hk; by rewrite lookup_insert_ne|].
        intros inst Hi. destruct (decide (CommitReq.Seq req = k)) as [<-|Hne].
        -- rewrite lookup_insert_eq. simplify_eq. eexists; split; [done|]. simpl. lia.
        -- rewrite lookup_insert_ne by done. exists inst. split; [done|lia].
      * split; [done|]. intros inst Hi. exists inst. split; [done|lia].
    + simpl. split; [intros Hk; by rewrite lookup_insert_ne|].
      intros inst Hi. destruct (decide (CommitReq.Seq req = k)) as [<-|Hne].
      * congruence.
      * rewrite lookup_insert_ne by done. exists inst. split; [done|lia].
  - rewrite AcceptDecided_instance.
    split; [intros Hk; by rewrite lookup_insert_ne|].
    intros inst Hi. destruct (decide (DecideReq.Seq req = k)) as [<-|Hne].
    + rewrite lookup_insert_eq, Hi. eexists; split; [done|]. simpl. lia.
    + rewrite lookup_insert_ne by done. exists inst. split; [done|lia].
Qed.

Lemma handle_fields px m :
  peers (handle px m).1 = peers px
  ∧ me (handle px m).1 = me px
  ∧ length (done (handle px m).1) = length (done px)
  ∧ (¬ is_decide m → done (handle px m).1 = done px).
Proof.
  destruct m as [req|req|req]; simpl.
  - unfold AcceptPrepare.
    destruct (instance px !! PrepareReq.Seq req) as [i0|]; [|done].
    by destruct (platest i0 <=? PrepareReq.Stamp req).
  - unfold AcceptCommit.
    destruct (instance px !! CommitReq.Seq req) as [i0|]; [|done].
    by destruct (platest i0 <=? CommitReq.Stamp req).
  - unfold AcceptDecided. simpl.
    destruct (in_bounds (DecideReq.Svrid req) (done px)); simpl;
      split_and!; try done; by rewrite ?length_insert.
Qed.

(** X1: a handler call only touches the instance of the sequence number
    it is addressed to; the peer list and the peer's index are never
    written, the watermark array keeps its length, and Prepare and Accept
    leave it as it is. *)
Theorem handlers_touch_one_instance px m k :
  k ≠ msg_seq m →
  instance (handle px m).1 !! k = instance px !! k
  ∧ peers (handle px m).1 = peers px
  ∧ me (handle px m).1 = me px
  ∧ length (done (handle px m).1) = length (done px)
  ∧ (¬ is_decide m → done (handle px m).1 = done px).
Proof.
  intros Hk. split; [by apply handle_lookup|]. apply handle_fields.
Qed.

(** X2: over any sequence of Prepare, Accept and Decide calls an existing
    instance is never removed and its promised ballot never goes down. *)
Theorem promise_never_lowered px (ms : list (Msg V)) seq inst :
  instance px !! seq = Some inst →
  ∃ inst', instance (handle_all px ms) !! seq = Some inst'
           ∧ platest inst <= platest inst'.
Proof.
  revert px inst. induction ms as [|m ms IH]; intros px inst Hi; simpl.
  { exists inst. split; [done|lia]. }
  destruct (proj2 (handle_lookup px m seq) inst Hi) as (i1 & H1 & Hle).
  destruct (handle px m) as [px' []]; simpl in *.
  - destruct (IH px' i1 H1) as (i2 & H2 & Hle2). exists i2. split; [done|lia].
  - exists i1. by split.
Qed.

Lemma handle_ballots_ordered px m :
  stamp_nonneg m → ballots_ordered px → ballots_ordered (handle px m).1.
Proof.
  intros Hm Hpx k inst.
  destruct m as [req|req|req]; simpl in *.
  - unfold AcceptPrepare.
    destruct (instance px !! PrepareReq.Seq req) as [i0|] eqn:E.
    + destruct (Z.leb_spec (platest i0) (PrepareReq.Stamp req)); simpl; [|apply Hpx].
      destruct (decide (PrepareReq.Seq req = k)) as [<-|Hne].
      * rewrite lookup_insert_eq. intros [= <-]. simpl.
        specialize (Hpx _ _ E). lia.
      * rewrite lookup_insert_ne by done. apply Hpx.
    + simpl. destruct (decide (PrepareReq.Seq req = k)) as [<-|Hne].
      * rewrite lookup_insert_eq. intros [= <-]. simpl. lia.
      * rewrite lookup_insert_ne by done. apply Hpx.
  - unfold AcceptCommit.
    destruct (instance px !! CommitReq.Seq req) as [i0|] eqn:E.
    + destruct (Z.leb_spec (platest i0) (CommitReq.Stamp req)); simpl; [|apply Hpx].
      destruct (decide (CommitReq.Seq req = k)) as [<-|Hne].
      * rewrite lookup_insert_eq. intros [= <-]. simpl. lia.
      * rewrite lookup_insert_ne by done. apply Hpx.
    + simpl. destruct (decide (CommitReq.Seq req = k)) as [<-|Hne].
      * rewrite lookup_insert_eq. intros [= <-]. simpl. lia.
      * rewrite lookup_insert_ne by done. apply Hpx.
  - rewrite AcceptDecided_instance.
    destruct (decide (DecideReq.Seq req = k)) as [<-|Hne].
    + rewrite lookup_insert_eq. intros [= <-]. simpl.
      destruct (instance px !! DecideReq.Seq req) as [i0|] eqn:E; simpl; [|lia].
      by apply (Hpx _ _ E).
    + rewrite lookup_insert_ne by done. apply Hpx.
Qed.

(** X3: as long as the ballots of the Prepare and Accept messages are not
    negative, every instance keeps its accepted ballot at or below its
    promised ballot, over any sequence of handler calls. *)
Theorem accepted_below_promised px (ms : list (Msg V)) :
  ballots_ordered px →
  Forall stamp_nonneg ms →
  ballots_ordered (handle_all px ms).
Proof.
  revert px. induction ms as [|m ms IH]; intros px Hpx Hms; simpl; [done|].
  apply Forall_cons in Hms as [Hm Hms].
  pose proof (handle_ballots_ordered px m Hm Hpx) as Hstep.
  destruct (handle px m) as [px' []]; simpl in *; [by apply IH | done].
Qed.

Lemma Paxos_eta px : mkPaxos (peers px) (me px) (instance px) (done px) = px.
Proof. by destruct px. Qed.

(** X4: a Prepare or a Decide that is delivered twice does the same as
    delivered once: same peer state, same reply. *)
Theorem Prepare_Decide_idempotent px (preq : PrepareReq.t) (dreq : DecideReq.t V) :
  AcceptPrepare (AcceptPrepare px preq).1 preq = AcceptPrepare px preq
  ∧ AcceptDecided (AcceptDecided px dreq).1 dreq = AcceptDecided px dreq.
Proof.
  split.
  - unfold AcceptPrepare at 2 3.
    destruct (instance px !! PrepareReq.Seq preq) as [i0|] eqn:E.
    + destruct (Z.leb_spec (platest i0) (PrepareReq.Stamp preq)) as [Hle|Hgt].
      * simpl. unfold AcceptPrepare. simpl. rewrite lookup_insert_eq. simpl.
        rewrite Z.leb_refl. unfold set_instance. simpl.
        by rewrite insert_insert_eq.
      * simpl. unfold AcceptPrepare. rewrite E.
        destruct (Z.leb_spec (platest i0) (PrepareReq.Stamp preq)); [lia|done].
    + simpl. unfold AcceptPrepare. simpl. rewrite lookup_insert_eq. simpl.
      rewrite Z.leb_refl. unfold set_instance. simpl.
      by rewrite insert_insert_eq.
  - unfold AcceptDecided at 2 3. simpl.
    destruct (in_bounds (DecideReq.Svrid dreq) (done px)) eqn:Hb; simpl.
    + unfold AcceptDecided. simpl. rewrite lookup_insert_eq.
      assert (in_bounds (DecideReq.Svrid dreq)
                (<[Z.to_nat (DecideReq.Svrid dreq) := DecideReq.Done dreq]> (done px))
              = true) as ->.
      { apply in_bounds_spec. rewrite length_insert. by apply in_bounds_spec. }
      unfold set_done, set_instance. simpl.
      rewrite insert_insert_eq, list_insert_insert_eq.
      by destruct (instance px !! DecideReq.Seq dreq).
    + unfold AcceptDecided. simpl. rewrite lookup_insert_eq, Hb.
      unfold set_instance. simpl. rewrite insert_insert_eq.
      by destruct (instance px !! DecideReq.Seq dreq).
Qed.


(** X6: after an Accept that was answered OK, a Prepare for the same
    sequence number with a ballot at least as high is accepted and reports
    the accepted value; the accepted ballot it reports is the Accept's
    ballot if the instance existed before the Accept and 0 if the Accept
    created it. *)
Theorem Prepare_reports_accepted px (req : CommitReq.t V) (ballot : Z) :
  CommitRsp.Code (AcceptCommit px req).2 = ErrOK →
  CommitReq.Stamp req <= ballot →
  (AcceptPrepare (AcceptCommit px req).1
     (PrepareReq.mk (CommitReq.Seq req) ballot)).2 =
  PrepareRsp.mk ErrOK (CommitReq.Value req)
    (match instance px !! CommitReq.Seq req with
     | Some _ => CommitReq.Stamp req
     | None => 0
     end).
Proof.
  intros Hok Hle. unfold AcceptCommit in *.
  destruct (instance px !! CommitReq.Seq req) as [i0|] eqn:E.
  - destruct (Z.leb_spec (platest i0) (CommitReq.Stamp req)); [|done].
    simpl. unfold AcceptPrepare. simpl. rewrite lookup_insert_eq. simpl.
    destruct (Z.leb_spec (CommitReq.Stamp req) ballot); [done|lia].
  - simpl. unfold AcceptPrepare. simpl. rewrite lookup_insert_eq. simpl.
    destruct (Z.leb_spec (CommitReq.Stamp req) ballot); [done|lia].
Qed.

Lemma Status_false px seq :
  Status px seq = (false, None) ↔ ¬ decided_at px seq.
Proof.
  unfold Status, decided_at, is_decided.
  destruct (instance px !! seq) as [inst|] eqn:E.
  - destruct (decide (status inst = StateDecided)) as [Hd|Hd].
    + rewrite bool_decide_eq_true_2 by done. split; [done|].
      intros Hn. exfalso. apply Hn. eauto.
    + rewrite bool_decide_eq_false_2 by done. split; [|done].
      intros _ (i & [= <-] & Hi). done.
  - split; [|done]. intros _ (i & Hi & _). done.
Qed.

(** X7: after a Decide is handled, [Status] of its sequence number is
    (true, the message's value), also when the handler panics on the
    watermark; [Status] of every other sequence number is as before. *)
Theorem Status_after_Decide px (req : DecideReq.t V) (k : Z) :
  Status (AcceptDecided px req).1 (DecideReq.Seq req) = (true, DecideReq.Value req)
  ∧ (k ≠ DecideReq.Seq req → Status (AcceptDecided px req).1 k = Status px k).
Proof.
  unfold Status. rewrite AcceptDecided_instance. split.
  - by rewrite lookup_insert_eq.
  - intros Hk. by rewrite lookup_insert_ne.
Qed.

Lemma handle_undecided px m seq :
  no_decide_for seq m → ¬ decided_at px seq → ¬ decided_at (handle px m).1 seq.
Proof.
  intros Hm Hn (i1 & H1 & Hd). apply Hn. unfold decided_at.
  destruct (decide (seq = msg_seq m)) as [->|Hne].
  2:{ rewrite (proj1 (handle_lookup px m seq) Hne) in H1. eauto. }
  destruct m as [req|req|req]; simpl in *; [| |done].
  - unfold AcceptPrepare in H1.
    destruct (instance px !! PrepareReq.Seq req) as [i0|] eqn:E.
    + destruct (platest i0 <=? PrepareReq.Stamp req); simpl in H1.
      * rewrite lookup_insert_eq in H1. simplify_eq. eauto.
      * rewrite E in H1. simplify_eq. eauto.
    + simpl in H1. rewrite lookup_insert_eq in H1. by simplify_eq.
  - unfold AcceptCommit in H1.
    destruct (instance px !! CommitReq.Seq req) as [i0|] eqn:E.
    + destruct (platest i0 <=? CommitReq.Stamp req); simpl in H1.
      * rewrite lookup_insert_eq in H1. simplify_eq. eauto.
      * rewrite E in H1. simplify_eq. eauto.
    + simpl in H1. rewrite lookup_insert_eq in H1. by simplify_eq.
Qed.

(** X8: only a Decide makes [Status] report an instance as decided: if
    [Status] says (false, nil) for a sequence number, it still says so
    after any sequence of handler calls without a Decide for that
    sequence number. *)
Theorem only_Decide_decides px (ms : list (Msg V)) seq :
  Status px seq = (false, None) →
  Forall (no_decide_for seq) ms →
  Status (handle_all px ms) seq = (false, None).
Proof.
  rewrite !Status_false. revert px.
  induction ms as [|m ms IH]; intros px Hn Hms; simpl; [done|].
  apply Forall_cons in Hms as [Hm Hms].
  pose proof (handle_undecided px m seq Hm Hn) as Hstep.
  destruct (handle px m) as [px' []]; simpl in *; [by apply IH | done].
Qed.

End Handlers.

(** * Further properties of the watermark and of the reads *)

Section Housekeeping.
Context {V : Type}.
Implicit Types (px : Paxos V) (inst : PaxosInst V).

(** X9: [Max] is never negative, is at least every sequence number in
    the table, and is 0 or a sequence number of the table; on an empty
    table, or one with negative sequence numbers only, it is 0. *)
Theorem Max_greatest px :
  0 <= Max px
  ∧ (∀ k, is_Some (instance px !! k) → k <= Max px)
  ∧ (Max px = 0 ∨ is_Some (instance px !! Max px))
  ∧ ((∀ k, is_Some (instance px !! k) → k < 0) → Max px = 0).
Proof.
  unfold Max.
  assert (0 <= map_fold (λ i (_ : PaxosInst V) ans, if i >? ans then i else ans)
                        0 (instance px)
          ∧ (∀ k, is_Some (instance px !! k) →
                  k <= map_fold (λ i (_ : PaxosInst V) ans,
                                   if i >? ans then i else ans) 0 (instance px))
          ∧ (map_fold (λ i (_ : PaxosInst V) ans, if i >? ans then i else ans)
                      0 (instance px) = 0
             ∨ is_Some (instance px !!
                  map_fold (λ i (_ : PaxosInst V) ans,
                              if i >? ans then i else ans) 0 (instance px))))
    as (H0 & Hub & Hin).
  { apply (map_fold_weak_ind
      (λ (ans : Z) (m : gmap Z (PaxosInst V)),
         0 <= ans ∧ (∀ k, is_Some (m !! k) → k <= ans)
         ∧ (ans = 0 ∨ is_Some (m !! ans)))).
    - split_and!; [lia| |by left]. intros k [x Hx]. by rewrite lookup_empty in Hx.
    - intros i x m ans Hi (H0 & Hub & Hin).
      destruct (Z.gtb_spec i ans) as [Hgt|Hle].
      + split_and!; [lia| |].
        * intros k. destruct (decide (i = k)) as [->|Hne]; [lia|].
          rewrite lookup_insert_ne by done. intros Hk. specialize (Hub k Hk). lia.
        * right. by rewrite lookup_insert_eq.
      + split_and!; [done| |].
        * intros k. destruct (decide (i = k)) as [->|Hne]; [lia|].
          rewrite lookup_insert_ne by done. apply Hub.
        * destruct Hin as [Hin|Hin]; [by left|right].
          destruct (decide (i = ans)) as [->|Hne].
          -- by rewrite lookup_insert_eq.
          -- by rewrite lookup_insert_ne. }
  split_and!; [done..|].
  intros Hneg. destruct Hin as [Hin|Hin]; [done|].
  specialize (Hneg _ Hin). lia.
Qed.

Lemma Done_in_bounds px (seq d : Z) :
  0 <= me px < Z.of_nat (length (done px)) →
  done px !! Z.to_nat (me px) = Some d →
  Done px seq =
    (set_done px (<[Z.to_nat (me px) := Z.max d seq]> (done px)), Returned).
Proof.
  intros Hb Hd. unfold Done.
  rewrite (proj2 (in_bounds_spec _ _) Hb), Hd.
  destruct (Z.geb_spec seq d) as [Hge|Hlt].
  - by rewrite Z.max_r by lia.
  - rewrite Z.max_l by lia. rewrite list_insert_id by done.
    unfold set_done. by rewrite Paxos_eta.
Qed.

(** X10: [Done] on a peer whose index is inside its watermark array
    returns, sets the peer's own entry to the larger of the old entry and
    the argument, and writes nothing else. *)
Theorem Done_raises_own_entry px (seq d : Z) :
  0 <= me px < Z.of_nat (length (done px)) →
  done px !! Z.to_nat (me px) = Some d →
  (Done px seq).2 = Returned
  ∧ done (Done px seq).1 !! Z.to_nat (me px) = Some (Z.max d seq)
  ∧ (∀ j, j ≠ Z.to_nat (me px) → done (Done px seq).1 !! j = done px !! j)
  ∧ instance (Done px seq).1 = instance px
  ∧ peers (Done px seq).1 = peers px
  ∧ me (Done px seq).1 = me px.
Proof.
  intros Hb Hd. rewrite (Done_in_bounds px seq d Hb Hd). simpl.
  split_and!; try done.
  - apply list_lookup_insert_eq. lia.
  - intros j Hj. by apply list_lookup_insert_ne.
Qed.

(** X11: two [Done] calls in a row amount to one with the larger
    argument, in either order. *)
Theorem Done_twice px (a b : Z) :
  0 <= me px < Z.of_nat (length (done px)) →
  (Done (Done px a).1 b).1 = (Done px (Z.max a b)).1
  ∧ (Done (Done px a).1 b).1 = (Done (Done px b).1 a).1.
Proof.
  intros Hb.
  assert (∃ d, done px !! Z.to_nat (me px) = Some d) as [d Hd].
  { apply lookup_lt_is_Some. lia. }
  assert (∀ x y, (Done (Done px x).1 y).1 =
                 set_done px (<[Z.to_nat (me px) := Z.max (Z.max d x) y]> (done px)))
    as Htwice.
  { intros x y. rewrite (Done_in_bounds px x d Hb Hd). simpl.
    rewrite (Done_in_bounds _ y (Z.max d x)); simpl.
    - unfold set_done. simpl. by rewrite list_insert_insert_eq.
    - by rewrite length_insert.
    - apply list_lookup_insert_eq. lia. }
  split.
  - rewrite Htwice, (Done_in_bounds px _ d Hb Hd). simpl.
    by rewrite Z.max_assoc.
  - rewrite !Htwice. do 2 f_equal. lia.
Qed.

Lemma min_done_capped (d : list Z) (m : Z) :
  least_of d m → min_done d = Z.min 2147483647 m.
Proof.
  intros [Hin Hmin]. unfold min_done.
  destruct (min_fold_spec d 2147483647) as (H1 & H2 & H3). simpl in *.
  specialize (H2 m Hin). destruct H3 as [H3|H3].
  - rewrite H3 in *. lia.
  - specialize (Hmin _ H3). lia.
Qed.

Lemma Min_ans_nonempty px :
  done px ≠ [] → Min_ans px = min_done (done px).
Proof.
  intros Hne. unfold Min_ans.
  destruct (decide (length (done px) = 0%nat)) as [E|E]; [|done].
  by apply nil_length_inv in E.
Qed.

(** X12: on a peer with watermark entries (all of them Go ints) whose
    least entry is [m], [Min] returns one more than the smaller of
    0x7fffffff and [m], removes the Decided instances below that smaller
    number and no other, and leaves the watermark array alone. *)
Theorem Min_capped px (m : Z) :
  least_of (done px) m →
  Forall int_range (done px) →
  (Min px).2 = Z.min 2147483647 m + 1
  ∧ done (Min px).1 = done px
  ∧ ∀ k, instance (Min px).1 !! k =
         match instance px !! k with
         | Some inst =>
             if bool_decide (k < Z.min 2147483647 m ∧ status inst = StateDecided)
             then None else Some inst
         | None => None
         end.
Proof.
  intros Hleast Hr.
  assert (Min_ans px = Z.min 2147483647 m) as Hans.
  { rewrite Min_ans_nonempty, (min_done_capped _ m) by
      (try done; destruct Hleast as [Hin _]; intros E; rewrite E in Hin;
       by apply elem_of_nil in Hin).
    done. }
  split_and!; [|done|].
  - unfold Min. simpl. rewrite Hans. apply int_wrap_id.
    destruct Hleast as [Hin _]. rewrite Forall_forall in Hr.
    specialize (Hr _ Hin). unfold int_range in *. lia.
  - intros k. unfold Min. simpl. rewrite Hans, evict_lookup.
    destruct (instance px !! k) as [inst|]; [|done].
    unfold is_decided.
    destruct (Z.ltb_spec k (Z.min 2147483647 m));
      destruct (decide (status inst = StateDecided)); simpl.
    + rewrite bool_decide_eq_true_2 by done. simpl.
      by rewrite bool_decide_eq_true_2.
    + rewrite bool_decide_eq_false_2 by done. simpl.
      rewrite bool_decide_eq_false_2; [done|]. by intros [_ ?].
    + rewrite bool_decide_eq_false_2; [done|]. intros [? _]. lia.
    + rewrite bool_decide_eq_false_2; [done|]. intros [? _]. lia.
Qed.

(** X13: [Min] called again right away returns the same number and
    finds nothing more to remove. *)
Theorem Min_idempotent px : Min (Min px).1 = Min px.
Proof.
  unfold Min at 1 3. simpl.
  assert (Min_ans (set_instance px (evict (Min_ans px) (instance px))) = Min_ans px)
    as -> by done.
  unfold set_instance. simpl. do 2 f_equal.
  apply map_eq. intros k. rewrite !evict_lookup.
  destruct (instance px !! k) as [inst|]; [|done].
  by destruct ((k <? Min_ans px) && is_decided inst) eqn:E; [|rewrite E].
Qed.

Lemma Min_ans_sentinel px :
  -1 ∈ done px → Forall (λ d, -1 <= d) (done px) → Min_ans px = -1.
Proof.
  intros Hin Hall.
  rewrite Min_ans_nonempty
    by (intros E; rewrite E in Hin; by apply elem_of_nil in Hin).
  rewrite (min_done_capped _ (-1)); [done|].
  split; [done|]. by apply Forall_forall.
Qed.

(** X14: while some peer has never been heard from (its entry is the
    sentinel -1, and no entry is below it), [Min] returns 0 and removes
    no instance with a sequence number from -1 upwards, decided or not. *)
Theorem Min_waits_for_every_peer px :
  -1 ∈ done px →
  Forall (λ d, -1 <= d) (done px) →
  (Min px).2 = 0
  ∧ ∀ k inst, -1 <= k → instance px !! k = Some inst →
              instance (Min px).1 !! k = Some inst.
Proof.
  intros Hin Hall.
  pose proof (Min_ans_sentinel px Hin Hall) as Hans.
  split.
  - unfold Min. simpl. by rewrite Hans.
  - intros k inst Hk Hi. apply Min_keeps; [done|]. right. lia.
Qed.

(** X15: after [Min], [Status] answers (false, nil) for every sequence
    number below [ans] (the number [Min] returns, less one) and answers
    as before from [ans] upwards. *)
Theorem Status_after_Min px (seq : Z) :
  Status (Min px).1 seq =
  if seq <? Min_ans px then (false, None) else Status px seq.
Proof.
  unfold Status, Min. simpl. rewrite evict_lookup.
  destruct (instance px !! seq) as [inst|]; [|by destruct (seq <? Min_ans px)].
  destruct (seq <? Min_ans px); simpl; [|done].
  by destruct (is_decided inst) eqn:E; [|rewrite E].
Qed.


(** X17: the Decide a proposer builds carries its own index and its own
    watermark entry, so handling it locally always returns and leaves
    the proposer's watermark array as it was, while [Status] turns to
    (true, the decided value). *)
Theorem own_Decide_keeps_watermarks px (seq : Z) (v : option V) :
  0 <= me px < Z.of_nat (length (done px)) →
  ∃ req, decision_req px seq v = Some req
         ∧ DecideReq.Seq req = seq ∧ DecideReq.Value req = v
         ∧ DecideReq.Svrid req = me px
         ∧ (AcceptDecided px req).2 = Returned
         ∧ done (AcceptDecided px req).1 = done px
         ∧ Status (AcceptDecided px req).1 seq = (true, v).
Proof.
  intros Hb. unfold decision_req.
  rewrite (proj2 (in_bounds_spec _ _) Hb).
  destruct (done px !! Z.to_nat (me px)) as [d|] eqn:Hd.
  2:{ apply lookup_ge_None in Hd. lia. }
  simpl. eexists. split; [done|]. simpl. split_and!; try done.
  - unfold AcceptDecided. simpl. by rewrite (proj2 (in_bounds_spec _ _) Hb).
  - unfold AcceptDecided. simpl. rewrite (proj2 (in_bounds_spec _ _) Hb). simpl.
    by apply list_insert_id.
  - unfold Status. rewrite AcceptDecided_instance. simpl.
    by rewrite lookup_insert_eq.
Qed.

End Housekeeping.

(** * Further properties of the proposer *)

Section Rounds.
Context {V : Type}.
Implicit Types (px : Paxos V) (rsps : list (PrepareRsp.t V)) (v nv : option V).

Lemma quorum_round_spec px (r : Round V) :
  quorum_round px r ↔
  (sendPrepare px (timestamp r) (prepare_replies r)).1.1 = true
  ∧ sendCommit px (commit_replies r) = true.
Proof.
  unfold quorum_round.
  rewrite sendPrepare_ok, sendCommit_ok, requiredVotes_quot. lia.
Qed.

Lemma prepend_decision (cs : list (Call V)) (run : list (Call V) * Proposer V) :
  Forall (λ c, ¬ is_decision c) cs →
  Forall (λ c, ¬ is_decision c) run.1 →
  Forall (λ c, ¬ is_decision c) (prepend cs run).1.
Proof. intros H1 H2. unfold prepend. simpl. by apply Forall_app. Qed.

Lemma prepend_last (cs : list (Call V)) (run : list (Call V) * Proposer V) c :
  last run.1 = Some c → last (prepend cs run).1 = Some c.
Proof. intros H. unfold prepend. simpl. by rewrite last_app, H. Qed.

(** X18: the proposer loop reaches Decided exactly when one of the rounds
    it is given has at least requiredVotes OK replies in both of its
    broadcasts; its last call is then [sendDecision] with the decided
    value.  Without such a round it is still proposing and has never
    called [sendDecision]. *)
Theorem Start_loop_decides_iff_quorum px (seq : Z) v (rounds : list (Round V)) :
  (Exists (quorum_round px) rounds →
   ∃ w, (Start_loop px seq v rounds).2 = Decided w
        ∧ last (Start_loop px seq v rounds).1 = Some (SendDecision seq w))
  ∧ (¬ Exists (quorum_round px) rounds →
     ∃ w, (Start_loop px seq v rounds).2 = Proposing w
          ∧ Forall (λ c, ¬ is_decision c) (Start_loop px seq v rounds).1).
Proof.
  revert v. induction rounds as [|r rest IH]; intros v.
  { split; [intros H; by apply Exists_nil in H|]. intros _. exists v. by split. }
  destruct ((sendPrepare px (timestamp r) (prepare_replies r)).1.1) eqn:Hp.
  - destruct (sendCommit px (commit_replies r)) eqn:Hc.
    + rewrite (Start_loop_decided _ _ _ _ _ Hp Hc). split.
      * intros _. by eexists.
      * intros Hn. exfalso. apply Hn. left. by apply quorum_round_spec.
    + rewrite (Start_loop_commit_failed _ _ _ _ _ Hp Hc).
      assert (¬ quorum_round px r) as Hr.
      { rewrite quorum_round_spec. intros [_ ?]. congruence. }
      destruct (IH (next_candidate px v r)) as [IH1 IH2]. split.
      * intros [?|He]%Exists_cons; [done|].
        destruct (IH1 He) as (w & Hw & Hl). exists w. split; [done|].
        by apply prepend_last.
      * intros Hn. destruct IH2 as (w & Hw & Hf).
        { intros He. apply Hn. by right. }
        exists w. split; [done|]. apply prepend_decision; [|done].
        repeat constructor; by intros [].
  - rewrite (Start_loop_prepare_failed _ _ _ _ _ Hp).
    assert (¬ quorum_round px r) as Hr.
    { rewrite quorum_round_spec. intros [? _]. congruence. }
    destruct (IH v) as [IH1 IH2]. split.
    + intros [?|He]%Exists_cons; [done|].
      destruct (IH1 He) as (w & Hw & Hl). exists w. split; [done|].
      by apply prepend_last.
    + intros Hn. destruct IH2 as (w & Hw & Hf).
      { intros He. apply Hn. by right. }
      exists w. split; [done|]. apply prepend_decision; [|done].
      repeat constructor; by intros [].
Qed.

(** Where the candidate of a turn comes from. *)
Lemma next_candidate_origin px v (r : Round V) :
  next_candidate px v r = v
  ∨ ∃ rsp, rsp ∈ prepare_replies r ∧ PrepareRsp.Code rsp = ErrOK
           ∧ 0 < PrepareRsp.Stamp rsp
           ∧ PrepareRsp.Value rsp = next_candidate px v r.
Proof.
  destruct ((sendPrepare px (timestamp r) (prepare_replies r)).1.1) eqn:Hp.
  2:{ left. by apply next_candidate_no_quorum. }
  rewrite (next_candidate_ok _ _ _ Hp), sendPrepare_nv.
  destruct (tally_highest (prepare_replies r) 0 0 None)
    as [(_ & -> & _)|(i & x & (Hi & Hok & _) & Hlt & _ & ->)]; [by left|].
  destruct (PrepareRsp.Value x) as [w|] eqn:Hx; [|by left].
  right. exists x. split_and!; try done.
  apply list_elem_of_lookup. eauto.
Qed.

(** X19: whatever the replies, the candidate the proposer ends with (the
    decided value, if it decides) is the value [Start] was called with or
    a value carried by an OK Prepare reply with an accepted ballot
    above 0 in one of the rounds. *)
Theorem candidate_comes_from_replies px (seq : Z) v (rounds : list (Round V)) :
  candidate_of (Start_loop px seq v rounds).2 = v
  ∨ ∃ r rsp, r ∈ rounds ∧ rsp ∈ prepare_replies r
             ∧ PrepareRsp.Code rsp = ErrOK ∧ 0 < PrepareRsp.Stamp rsp
             ∧ PrepareRsp.Value rsp = candidate_of (Start_loop px seq v rounds).2.
Proof.
  revert v. induction rounds as [|r rest IH]; intros v; [by left|].
  assert (∀ u, (u = next_candidate px v r) →
            (candidate_of (Start_loop px seq u rest).2 = u
             ∨ ∃ r0 rsp, r0 ∈ rest ∧ rsp ∈ prepare_replies r0
                 ∧ PrepareRsp.Code rsp = ErrOK ∧ 0 < PrepareRsp.Stamp rsp
                 ∧ PrepareRsp.Value rsp = candidate_of (Start_loop px seq u rest).2) →
            candidate_of (Start_loop px seq u rest).2 = v
            ∨ ∃ r0 rsp, r0 ∈ r :: rest ∧ rsp ∈ prepare_replies r0
                ∧ PrepareRsp.Code rsp = ErrOK ∧ 0 < PrepareRsp.Stamp rsp
                ∧ PrepareRsp.Value rsp = candidate_of (Start_loop px seq u rest).2)
    as Hstep.
  { intros u Hu [Hsame|(r0 & rsp & Hr0 & Hrest)].
    - rewrite Hsame, Hu.
      destruct (next_candidate_origin px v r) as [->|(rsp & Hin & Hok & Hpos & Hv)];
        [by left|].
      right. exists r, rsp. split_and!; try done. by left.
    - right. exists r0, rsp. split; [by right|done]. }
  destruct ((sendPrepare px (timestamp r) (prepare_replies r)).1.1) eqn:Hp.
  - destruct (sendCommit px (commit_replies r)) eqn:Hc.
    + rewrite (Start_loop_decided _ _ _ _ _ Hp Hc). simpl.
      destruct (next_candidate_origin px v r) as [->|(rsp & Hin & Hok & Hpos & Hv)];
        [by left|].
      right. exists r, rsp. split_and!; try done. by left.
    + rewrite (Start_loop_commit_failed _ _ _ _ _ Hp Hc). unfold prepend. simpl.
      apply Hstep; [done|]. apply IH.
  - rewrite (Start_loop_prepare_failed _ _ _ _ _ Hp). unfold prepend. simpl.
    destruct (IH v) as [Hsame|(r0 & rsp & Hr0 & Hrest)]; [by left|].
    right. exists r0, rsp. split; [by right|done].
Qed.

Lemma tally_skips_failures rsps (acc : Z * Z * option V) :
  fold_left tally (filter (λ r, prepare_ok r = true) rsps) acc =
  fold_left tally rsps acc.
Proof.
  revert acc. induction rsps as [|x rsps IH]; intros acc; [done|].
  rewrite filter_cons.
  destruct (decide (prepare_ok x = true)) as [Hx|Hx]; simpl; [apply IH|].
  rewrite IH. f_equal. unfold tally. destruct acc as [[a h] n].
  rewrite decide_False; [done|]. intros Hok. apply Hx.
  unfold prepare_ok. by rewrite bool_decide_eq_true.
Qed.

Lemma count_skips_failures (rsps : list CommitRsp.t) (accept : Z) :
  fold_left count_accept (filter (λ r, commit_ok r = true) rsps) accept =
  fold_left count_accept rsps accept.
Proof.
  revert accept. induction rsps as [|x rsps IH]; intros accept; [done|].
  rewrite filter_cons.
  destruct (decide (commit_ok x = true)) as [Hx|Hx]; simpl; [apply IH|].
  rewrite IH. f_equal. unfold count_accept.
  rewrite decide_False; [done|]. intros Hok. apply Hx.
  unfold commit_ok. by rewrite bool_decide_eq_true.
Qed.

(** X20: a reply that is not OK, be it a rejection or a transport
    failure, and whatever value and ballot it carries, has no effect on
    what [sendPrepare] and [sendCommit] return. *)
Theorem failures_do_not_count px (ts : Z) rsps (crsps : list CommitRsp.t) :
  sendPrepare px ts (filter (λ r, prepare_ok r = true) rsps) = sendPrepare px ts rsps
  ∧ sendCommit px (filter (λ r, commit_ok r = true) crsps) = sendCommit px crsps.
Proof.
  unfold sendPrepare, sendCommit.
  by rewrite tally_skips_failures, count_skips_failures.
Qed.

Lemma prepare_votes_perm rsps rsps' :
  rsps ≡ₚ rsps' → prepare_votes rsps = prepare_votes rsps'.
Proof. intros Hp. unfold prepare_votes. by rewrite Hp. Qed.

Lemma commit_votes_perm (c c' : list CommitRsp.t) :
  c ≡ₚ c' → commit_votes c = commit_votes c'.
Proof. intros Hp. unfold commit_votes. by rewrite Hp. Qed.

Lemma bool_eq_iff (a b : bool) : (a = true ↔ b = true) → a = b.
Proof. destruct a, b; intros [H1 H2]; try done; [by rewrite H1|by rewrite H2]. Qed.

(** The value [sendPrepare] returns is fixed by the set of replies when
    equal ballots name equal values. *)
Lemma tally_nv_perm rsps rsps' :
  rsps ≡ₚ rsps' →
  ballots_name_values rsps →
  (fold_left tally rsps (0, 0, None)).2 = (fold_left tally rsps' (0, 0, None)).2.
Proof.
  intros Hp Hval.
  assert (∀ r, r ∈ rsps' ↔ r ∈ rsps) as Hmem by (intros r; by rewrite Hp).
  destruct (tally_highest rsps 0 0 None)
    as [(_ & Hn & Hall)|(i & x & (Hi & Hok & Hmax & _) & Hlt & _ & Hn)];
  destruct (tally_highest rsps' 0 0 None)
    as [(_ & Hn' & Hall')|(i' & x' & (Hi' & Hok' & Hmax' & _) & Hlt' & _ & Hn')].
  - by rewrite Hn, Hn'.
  - assert (x' ∈ rsps) as Hx' by (apply Hmem, list_elem_of_lookup; eauto).
    apply list_elem_of_lookup in Hx' as [j Hj].
    specialize (Hall j x' Hj Hok'). lia.
  - assert (x ∈ rsps') as Hx by (apply Hmem, list_elem_of_lookup; eauto).
    apply list_elem_of_lookup in Hx as [j Hj].
    specialize (Hall' j x Hj Hok). lia.
  - rewrite Hn, Hn'.
    assert (x ∈ rsps) as Hx by (apply list_elem_of_lookup; eauto).
    assert (x' ∈ rsps) as Hx' by (apply Hmem, list_elem_of_lookup; eauto).
    apply Hval; try done.
    assert (x ∈ rsps') as Hx2 by (by apply Hmem).
    apply list_elem_of_lookup in Hx2 as [j Hj].
    apply list_elem_of_lookup in Hx' as [j' Hj'].
    specialize (Hmax j' x' Hj' Hok'). specialize (Hmax' j x Hj Hok). lia.
Qed.

(** X21: the order in which the replies arrive does not matter to
    [sendCommit], nor to the success of [sendPrepare]; it does not matter
    to the value [sendPrepare] returns either, provided OK replies that
    report the same accepted ballot carry the same value. *)
Theorem arrival_order_irrelevant px (ts : Z) rsps rsps' (c c' : list CommitRsp.t) :
  rsps ≡ₚ rsps' →
  c ≡ₚ c' →
  sendCommit px c = sendCommit px c'
  ∧ (sendPrepare px ts rsps).1 = (sendPrepare px ts rsps').1
  ∧ (ballots_name_values rsps → sendPrepare px ts rsps = sendPrepare px ts rsps').
Proof.
  intros Hp Hc.
  assert ((sendPrepare px ts rsps).1 = (sendPrepare px ts rsps').1) as H1.
  { pose proof (sendPrepare_ok px ts rsps) as Ho.
    pose proof (sendPrepare_ok px ts rsps') as Ho'.
    pose proof (sendPrepare_timestamp px ts rsps) as Ht.
    pose proof (sendPrepare_timestamp px ts rsps') as Ht'.
    rewrite (prepare_votes_perm _ _ Hp) in Ho.
    destruct (sendPrepare px ts rsps) as [[ok t] nv].
    destruct (sendPrepare px ts rsps') as [[ok' t'] nv'].
    simpl in *. subst t t'. f_equal. apply bool_eq_iff.
    by rewrite Ho, Ho'. }
  split_and!; [|done|].
  - apply bool_eq_iff. rewrite !sendCommit_ok.
    by rewrite (commit_votes_perm _ _ Hc).
  - intros Hval.
    pose proof (tally_nv_perm _ _ Hp Hval) as Hnv.
    rewrite <- !(sendPrepare_nv px ts) in Hnv.
    destruct (sendPrepare px ts rsps) as [p nv].
    destruct (sendPrepare px ts rsps') as [p' nv'].
    simpl in *. by subst.
Qed.

End Rounds.

(** * A peer straight out of [Make] *)

(** X22: a peer made for a non-empty peer list has one watermark entry
    per peer, reports every instance as undecided, has [Max] 0, and its
    [Min] returns 0 and changes nothing. *)
Theorem Make_fresh {V : Type} (ps : list string) (m seq : Z) :
  ps ≠ [] →
  length (done (Make (V:=V) ps m)) = length ps
  ∧ Status (Make (V:=V) ps m) seq = (false, None)
  ∧ Max (Make (V:=V) ps m) = 0
  ∧ Min (Make (V:=V) ps m) = (Make ps m, 0).
Proof.
  intros Hne.
  assert (length ps ≠ 0%nat) as Hlen by (by destruct ps).
  split_and!.
  - simpl. apply length_replicate.
  - unfold Status. simpl. by rewrite lookup_empty.
  - unfold Max. simpl. apply map_fold_empty.
  - assert (Min_ans (Make (V:=V) ps m) = -1) as Hans.
    { apply Min_ans_sentinel; simpl.
      - by apply elem_of_replicate.
      - apply Forall_replicate. lia. }
    unfold Min. rewrite Hans. simpl.
    unfold evict. by rewrite map_fold_empty.
Qed.

(** * The further theorems on concrete peers *)

(** X1 on [busy_peer]: an Accept for instance 8 leaves instance 7 and
    the watermarks alone. *)
Lemma handlers_touch_one_instance_witness :
  instance (handle busy_peer (MCommit (CommitReq.mk 8 (Some "w"%string) 3))).1 !! 7
    = instance busy_peer !! 7
  ∧ done (handle busy_peer (MCommit (CommitReq.mk 8 (Some "w"%string) 3))).1
    = done busy_peer.
Proof.
  destruct (handlers_touch_one_instance busy_peer
              (MCommit (CommitReq.mk 8 (Some "w"%string) 3)) 7)
    as (Hi & _ & _ & _ & Hd).
  - simpl. lia.
  - split; [exact Hi|]. apply Hd. simpl. tauto.
Defined.

(** X2 on [busy_peer]: the promise 10 of instance 7 only grows through a
    Prepare at 20, an Accept at 30 and a Decide. *)
Lemma promise_never_lowered_witness :
  ∃ inst',
    instance
      (handle_all busy_peer
         [MPrepare (PrepareReq.mk 7 20);
          MCommit (CommitReq.mk 7 (Some "z"%string) 30);
          MDecide (DecideReq.mk 7 (Some "y"%string) 1 5)]) !! 7 = Some inst'
    ∧ 10 <= platest inst'.
Proof.
  apply (promise_never_lowered busy_peer _ 7
           (mkInst StateDecided (Some "x"%string) 10 10)).
  reflexivity.
Defined.

(** X3 from a fresh peer: after a Prepare at 5, an Accept at 9 and a
    Decide, instance 7 has its accepted ballot at most its promise. *)
Lemma accepted_below_promised_witness :
  ∃ inst,
    instance
      (handle_all fresh_peer
         [MPrepare (PrepareReq.mk 7 5);
          MCommit (CommitReq.mk 7 (Some "z"%string) 9);
          MDecide (DecideReq.mk 7 (Some "z"%string) 1 (-1))]) !! 7 = Some inst
    ∧ alatest inst <= platest inst.
Proof.
  eexists. split; [reflexivity|].
  apply (accepted_below_promised fresh_peer
           [MPrepare (PrepareReq.mk 7 5);
            MCommit (CommitReq.mk 7 (Some "z"%string) 9);
            MDecide (DecideReq.mk 7 (Some "z"%string) 1 (-1))]) with (k := 7).
  - intros k inst H. unfold fresh_peer, Make in H. simpl in H.
    rewrite lookup_empty in H. discriminate H.
  - repeat constructor; simpl; lia.
  - reflexivity.
Defined.

(** X6 on [busy_peer] and on [fresh_peer]: the same Accept(7, "z", 12)
    is reported back with ballot 12 by the first and with ballot 0 by
    the second. *)
Lemma Prepare_reports_accepted_witness :
  (AcceptPrepare (AcceptCommit busy_peer (CommitReq.mk 7 (Some "z"%string) 12)).1
     (PrepareReq.mk 7 15)).2 = PrepareRsp.mk ErrOK (Some "z"%string) 12
  ∧ (AcceptPrepare (AcceptCommit fresh_peer (CommitReq.mk 7 (Some "z"%string) 12)).1
       (PrepareReq.mk 7 15)).2 = PrepareRsp.mk ErrOK (Some "z"%string) 0.
Proof.
  split.
  - apply (Prepare_reports_accepted busy_peer
             (CommitReq.mk 7 (Some "z"%string) 12) 15); [reflexivity | simpl; lia].
  - apply (Prepare_reports_accepted fresh_peer
             (CommitReq.mk 7 (Some "z"%string) 12) 15); [reflexivity | simpl; lia].
Defined.

(** X8 from a fresh peer: a Prepare and an Accept for instance 7 and a
    Decide for instance 8 leave instance 7 undecided. *)
Lemma only_Decide_decides_witness :
  Status
    (handle_all fresh_peer
       [MPrepare (PrepareReq.mk 7 5);
        MCommit (CommitReq.mk 7 (Some "z"%string) 9);
        MDecide (DecideReq.mk 8 (Some "w"%string) 1 (-1))]) 7 = (false, None).
Proof.
  apply (only_Decide_decides fresh_peer); [reflexivity|].
  repeat constructor; simpl; lia.
Defined.

(** X10 on [busy_peer], whose own entry is 4: Done(9) raises it to 9,
    Done(2) leaves it. *)
Lemma Done_raises_own_entry_witness :
  done (Done busy_peer 9).1 !! 0%nat = Some 9
  ∧ done (Done busy_peer 2).1 !! 0%nat = Some 4.
Proof.
  assert (0 <= me busy_peer < Z.of_nat (length (done busy_peer))) as Hb
    by (simpl; lia).
  assert (done busy_peer !! Z.to_nat (me busy_peer) = Some 4) as Hd
    by reflexivity.
  destruct (Done_raises_own_entry busy_peer 9 4 Hb Hd) as (_ & H9 & _).
  destruct (Done_raises_own_entry busy_peer 2 4 Hb Hd) as (_ & H2 & _).
  split; [exact H9 | exact H2].
Defined.

(** X11 on [busy_peer]: Done(9) then Done(5) is Done(9). *)
Lemma Done_twice_witness :
  (Done (Done busy_peer 9).1 5).1 = (Done busy_peer 9).1
  ∧ (Done (Done busy_peer 9).1 5).1 = (Done (Done busy_peer 5).1 9).1.
Proof.
  assert (0 <= me busy_peer < Z.of_nat (length (done busy_peer))) as Hb
    by (simpl; lia).
  exact (Done_twice busy_peer 9 5 Hb).
Defined.

(** X12 on a one-peer group with watermark 3000000000: [Min] returns
    2147483648. *)
Lemma Min_capped_witness :
  (Min (mkPaxos ["A"%string] 0 (∅ : gmap Z (PaxosInst string)) [3000000000])).2
  = 2147483648.
Proof.
  destruct (Min_capped
              (mkPaxos ["A"%string] 0 (∅ : gmap Z (PaxosInst string)) [3000000000])
              3000000000) as (Hret & _).
  - split; [by apply list_elem_of_singleton|].
    intros x Hx. apply list_elem_of_singleton in Hx. simpl in Hx. lia.
  - repeat constructor; unfold int_range; simpl; lia.
  - exact Hret.
Defined.

(** X14 on [busy_peer], which has not heard from peer C: [Min] returns 0
    and keeps the decided instance 7. *)
Lemma Min_waits_for_every_peer_witness :
  (Min busy_peer).2 = 0
  ∧ instance (Min busy_peer).1 !! 7 =
      Some (mkInst StateDecided (Some "x"%string) 10 10).
Proof.
  destruct (Min_waits_for_every_peer busy_peer) as [Hret Hkeep].
  - simpl. do 2 apply list_elem_of_further. apply list_elem_of_here.
  - repeat constructor; simpl; lia.
  - split; [exact Hret|]. apply Hkeep; [lia | reflexivity].
Defined.


(** X17 on [busy_peer]: its own Decide for instance 9 carries index 0 and
    watermark 4 and leaves the watermarks at 4, 6, -1. *)
Lemma own_Decide_keeps_watermarks_witness :
  ∃ req, decision_req busy_peer 9 mine = Some req
         ∧ done (AcceptDecided busy_peer req).1 = [4; 6; -1]
         ∧ Status (AcceptDecided busy_peer req).1 9 = (true, mine).
Proof.
  destruct (own_Decide_keeps_watermarks busy_peer 9 mine)
    as (req & Hreq & _ & _ & _ & _ & Hd & Hs).
  - simpl. lia.
  - exists req. split_and!; [exact Hreq | exact Hd | exact Hs].
Defined.

(** X21 on the replies of round 1, with the first two swapped. *)
Lemma arrival_order_irrelevant_witness :
  sendPrepare A0 100
    [PrepareRsp.mk ErrOK theirs 50; PrepareRsp.mk ErrOK None 0; lost]
  = sendPrepare A0 100
      [PrepareRsp.mk ErrOK None 0; PrepareRsp.mk ErrOK theirs 50; lost].
Proof.
  destruct (arrival_order_irrelevant A0 100
              [PrepareRsp.mk ErrOK theirs 50; PrepareRsp.mk ErrOK None 0; lost]
              [PrepareRsp.mk ErrOK None 0; PrepareRsp.mk ErrOK theirs 50; lost]
              [CommitRsp.mk ErrOK] [CommitRsp.mk ErrOK])
    as (_ & _ & Hsame).
  - apply perm_swap.
  - reflexivity.
  - apply Hsame. intros r1 r2 H1 H2 Hok1 Hok2 Hs.
    repeat (apply elem_of_cons in H1 as [->|H1]);
      repeat (apply elem_of_cons in H2 as [->|H2]);
      try done; try (by apply elem_of_nil in H1); by apply elem_of_nil in H2.
Defined.

(** X22 on the three-peer group. *)
Lemma Make_fresh_witness :
  Min (Make (V:=string) three_peers 0) = (Make three_peers 0, 0)
  ∧ Max (Make (V:=string) three_peers 0) = 0.
Proof.
  destruct (Make_fresh (V:=string) three_peers 0 7) as (_ & _ & Hmax & Hmin).
  - discriminate.
  - split; [exact Hmin | exact Hmax].
Defined.
